(** * BiliClaw: a shallow embedding of the crawler's core in Rocq

    Modules follow the Python sources under [src/spider]:
    - [Json]        the JSON values the code handles, Python truthiness,
                    [dict.get] and subscripting, and exceptions;
    - [Api]         [api.py]: the endpoint bodies, [retry_with_backoff],
                    [_get_error_return] and the WBI-signed request of
                    [get_main_comments];
    - [Storage]     [storage.py]: the sink calls with their id ledgers, the
                    per-video comment progress and the pending-user file;
    - [CookiePool]  [cookie_pool.py];
    - [RateLimiter] [rate_limiter.py] (both the [spider] and [spider-py]
                    variants);
    - [Crawler]     [crawler.py]: the per-video comment walk and the
                    shutdown step of [BiliCrawler.run];
    - [Ledger]      the text files behind [_record_sent_id],
                    [_load_sent_ids] and the pending-user file;
    - [Mids]        [_add_user_mid] and the restore step of [run];
    - [Search]      the page plan of [search_worker] and the chunking of
                    [search_videos_parallel];
    - [WbiKeys]     [_get_mixin_key], [_get_wbi_keys] and the key cache of
                    [get_wbi_mixin_key];
    - [PoolUse]     [is_cookie_error], [_handle_cookie_error] and
                    [get_status];
    - [CookieLoad]  [_load_cookies];
    - [Dedup]       the de-duplication of the search results. *)

From Stdlib Require Import QArith Qminmax Ascii Lia.
From stdpp Require Import base gmap strings list pretty.

Set Warnings "-register-all".

Module Json.

(** A JSON value as [json.loads] returns it (floats are not modelled);
    objects keep their decoded key order and have distinct keys. *)
Inductive json : Type :=
| JNull
| JBool (b : bool)
| JInt (z : Z)
| JStr (s : string)
| JList (l : list json)
| JObj (kvs : list (string * json)).

(** Python truthiness, as used by [if x:] and [if not x:]. *)
Definition truthy (j : json) : bool :=
  match j with
  | JNull => false
  | JBool b => b
  | JInt z => negb (Z.eqb z 0)
  | JStr s => negb (String.eqb s "")
  | JList l => match l with [] => false | _ => true end
  | JObj kvs => match kvs with [] => false | _ => true end
  end.

Fixpoint obj_lookup (k : string) (kvs : list (string * json)) : option json :=
  match kvs with
  | [] => None
  | (k', v) :: rest => if String.eqb k k' then Some v else obj_lookup k rest
  end.

(** A Python computation that returns a value or raises an exception;
    [PExc] carries [str(e)]. *)
Inductive pyres (A : Type) : Type :=
| POk (a : A)
| PExc (msg : string).
Arguments POk {A} a.
Arguments PExc {A} msg.

Definition pbind {A B} (m : pyres A) (k : A -> pyres B) : pyres B :=
  match m with
  | POk a => k a
  | PExc e => PExc e
  end.

Notation "'let!' x := m 'in' k" := (pbind m (fun x => k))
  (at level 200, x name, m at level 100, k at level 200).

Definition type_name (j : json) : string :=
  match j with
  | JNull => "NoneType"
  | JBool _ => "bool"
  | JInt _ => "int"
  | JStr _ => "str"
  | JList _ => "list"
  | JObj _ => "dict"
  end.

(** [o.get(k, d)]: raises [AttributeError] when [o] is not a dict. *)
Definition py_get (o : json) (k : string) (d : json) : pyres json :=
  match o with
  | JObj kvs => POk (match obj_lookup k kvs with Some v => v | None => d end)
  | _ => PExc ("'" ++ type_name o ++ "' object has no attribute 'get'")
  end.

(** [o[k]] with a string key. *)
Definition py_subscript (o : json) (k : string) : pyres json :=
  match o with
  | JObj kvs =>
      match obj_lookup k kvs with
      | Some v => POk v
      | None => PExc ("'" ++ k ++ "'")
      end
  | JList _ => PExc "list indices must be integers or slices, not str"
  | JStr _ => PExc "string indices must be integers, not 'str'"
  | _ => PExc ("'" ++ type_name o ++ "' object is not subscriptable")
  end.

(** [x != 0] for a decoded JSON value ([False == 0] in Python). *)
Definition py_ne_zero (j : json) : bool :=
  match j with
  | JInt z => negb (Z.eqb z 0)
  | JBool b => b
  | _ => true
  end.

End Json.
Import Json.

Module Storage.

(** One entry of [video_comment_progress.json]: the keys [done], [cursor]
    and [aid]; an absent [aid] key reads as [None] ([JNull]). The file is
    loaded and rewritten whole under [_progress_lock]; the map below is the
    content [_load_progress_data] returns. *)
Record progress_entry : Type := mkEntry {
  pe_done : bool;
  pe_cursor : json;
  pe_aid : json
}.

Definition fresh_entry : progress_entry := mkEntry false (JStr "") JNull.

(** [save_video_comment_progress(bvid, cursor, aid=None)] *)
Definition save_video_comment_progress (data : gmap string progress_entry)
    (bvid : string) (cursor aid : json) : gmap string progress_entry :=
  let e := match data !! bvid with Some e => e | None => fresh_entry end in
  let e := mkEntry (pe_done e) cursor (pe_aid e) in
  let e := match aid with JNull => e | _ => mkEntry (pe_done e) (pe_cursor e) aid end in
  <[bvid := e]> data.

(** [mark_video_comments_done(bvid)]: a missing entry starts as [{}]. *)
Definition mark_video_comments_done (data : gmap string progress_entry)
    (bvid : string) : gmap string progress_entry :=
  let aid := match data !! bvid with Some e => pe_aid e | None => JNull end in
  <[bvid := mkEntry true (JStr "") aid]> data.

(** [get_video_comment_progress(bvid)] *)
Definition get_video_comment_progress (data : gmap string progress_entry)
    (bvid : string) : progress_entry :=
  match data !! bvid with Some e => e | None => fresh_entry end.

(** The externally visible effects of the sink functions, in order:
    [producer.send(topic, key=k, value=...)] returning, and a line appended
    by [_record_sent_id(file, id)] to an id ledger under [sent_records/]. *)
Inductive event : Type :=
| ESend (topic key : string)
| ERecord (file line : string).

Section Sink.

(** [str(x)] of a JSON array or object is Python's [repr] of the list or
    dict; its text plays no role here and is left abstract. *)
Variable repr_container : json -> string.

(** [str(x)] / [f"{x}"] of a decoded JSON value. *)
Definition py_str (j : json) : string :=
  match j with
  | JNull => "None"
  | JBool true => "True"
  | JBool false => "False"
  | JInt z => pretty z
  | JStr s => s
  | JList _ | JObj _ => repr_container j
  end.

(** [producer.send]: kafka-python runs [key_serializer]
    ([k.encode("utf-8") if k else None]) inside [send], so a non-string
    truthy key raises there and nothing is sent. *)
Definition kafka_send (topic : string) (key : json) (log : list event)
    : pyres (list event) :=
  match key with
  | JStr s => POk (log ++ [ESend topic s])
  | _ => if truthy key then PExc ("'" ++ type_name key ++ "' object has no attribute 'encode'")
         else POk log
  end.

(** [save_video(video)] *)
Definition save_video (video : json) (log : list event) : pyres bool * list event :=
  match py_get video "bvid" JNull with
  | PExc e => (PExc e, log)
  | POk bvid =>
      if negb (truthy bvid) then (POk false, log) else
      match kafka_send "claw_video" bvid log with
      | PExc e => (PExc e, log)
      | POk log' => (POk true, log' ++ [ERecord "sent_videos.txt" (py_str bvid)])
      end
  end.

(** [save_comment(comment)] *)
Definition save_comment (comment : json) (log : list event) : pyres bool * list event :=
  match py_get comment "rpid" JNull with
  | PExc e => (PExc e, log)
  | POk rpid =>
      if negb (truthy rpid) then (POk false, log) else
      let rpid_str := py_str rpid in
      match kafka_send "claw_comment" (JStr rpid_str) log with
      | PExc e => (PExc e, log)
      | POk log' => (POk true, log' ++ [ERecord "sent_comments.txt" rpid_str])
      end
  end.

(** [save_account(account)]: [mid = account.get("card", {}).get("mid")]. *)
Definition save_account (account : json) (log : list event) : pyres bool * list event :=
  match (let! card := py_get account "card" (JObj []) in py_get card "mid" JNull) with
  | PExc e => (PExc e, log)
  | POk mid =>
      if negb (truthy mid) then (POk false, log) else
      let mid_str := py_str mid in
      match kafka_send "claw_account" (JStr mid_str) log with
      | PExc e => (PExc e, log)
      | POk log' => (POk true, log' ++ [ERecord "sent_accounts.txt" mid_str])
      end
  end.

End Sink.

(** The sink topic whose key an id ledger records. *)
Definition ledger_topic (file : string) : option string :=
  if String.eqb file "sent_videos.txt" then Some "claw_video"
  else if String.eqb file "sent_comments.txt" then Some "claw_comment"
  else if String.eqb file "sent_accounts.txt" then Some "claw_account"
  else None.

(** Every id recorded in an emitted-id ledger follows a sink call, on the
    ledger's topic, with that id as key. *)
Fixpoint ledger_ok_from (seen : list event) (log : list event) : Prop :=
  match log with
  | [] => True
  | ERecord f k :: rest =>
      (forall t, ledger_topic f = Some t -> In (ESend t k) seen)
      /\ ledger_ok_from (seen ++ [ERecord f k]) rest
  | ev :: rest => ledger_ok_from (seen ++ [ev]) rest
  end.

Definition ledger_ok (log : list event) : Prop := ledger_ok_from [] log.

(** [sent_records/pending_mids.txt]: [None] when the file is absent, else
    its lines. *)
Definition pending_file := option (list string).

(** [update_pending_mids(remaining_mids)]: the file is removed when the set
    is empty, else rewritten (mode ["w"]) with one id per line in the set's
    iteration order. *)
Definition update_pending_mids (remaining_mids : gset string) (f : pending_file)
    : pending_file :=
  if bool_decide (remaining_mids = ∅) then None
  else Some (elements remaining_mids).

End Storage.

Module Api.

(** The tuples the endpoint functions return; the last component is the
    error ([None] is [JNull]). *)
Inductive ret : Type :=
| RTriple (a b err : json)   (* (videos, num_pages, error), (replies, total_count, error) *)
| RPair (a err : json)       (* (aid, error), (video_data, error), (user_data, error) *)
| RQuad (a b c err : json).  (* (comments_list, next_cursor, is_end, error) *)

Definition ret_err (r : ret) : json :=
  match r with
  | RTriple _ _ e | RPair _ e | RQuad _ _ _ e => e
  end.

(** What an HTTP round trip inside an endpoint's [try] yields: the decoded
    [response.json()], or an exception raised by [session.get] or by the
    decoding, with its [str(e)]. *)
Inductive response : Type :=
| RespJson (data : json)
| RespRaise (msg : string).

(** The body's [try: ... except Exception as e: return <shape>, str(e)]. *)
Definition run_body (on_exc : string -> ret) (r : response)
    (k : json -> pyres ret) : ret :=
  match r with
  | RespRaise e => on_exc e
  | RespJson data => match k data with POk x => x | PExc e => on_exc e end
  end.

Definition message_of (data : json) : pyres json :=
  py_get data "message" (JStr "Unknown error").

(** The [code != 0] branches also call [_handle_cookie_error(session, code)],
    a credential-pool side effect that does not change the returned tuple. *)

(** [search_videos] *)
Definition search_videos_body (r : response) : ret :=
  run_body (fun e => RTriple (JList []) (JInt 0) (JStr e)) r (fun data =>
    let! code := py_get data "code" (JInt 0) in
    if py_ne_zero code then
      let! msg := message_of data in POk (RTriple (JList []) (JInt 0) msg)
    else
      let! d := py_get data "data" (JObj []) in
      let! videos := py_get d "result" (JList []) in
      let! d' := py_get data "data" (JObj []) in
      let! num_pages := py_get d' "numPages" (JInt 0) in
      POk (RTriple videos num_pages JNull)).

(** [get_video_aid] *)
Definition get_video_aid_body (r : response) : ret :=
  run_body (fun e => RPair JNull (JStr e)) r (fun data =>
    let! code := py_get data "code" (JInt 0) in
    if negb (py_ne_zero code) then
      let! d := py_subscript data "data" in
      let! aid := py_subscript d "aid" in
      POk (RPair aid JNull)
    else let! msg := message_of data in POk (RPair JNull msg)).

(** [get_video_detail] and [get_user_card] have the same body. *)
Definition get_data_body (r : response) : ret :=
  run_body (fun e => RPair JNull (JStr e)) r (fun data =>
    let! code := py_get data "code" (JInt 0) in
    if negb (py_ne_zero code) then
      let! d := py_subscript data "data" in POk (RPair d JNull)
    else let! msg := message_of data in POk (RPair JNull msg)).

Definition get_video_detail_body := get_data_body.
Definition get_user_card_body := get_data_body.

(** [x or []] *)
Definition or_empty_list (x : json) : json := if truthy x then x else JList [].

(** [get_main_comments], from the [try] on (the request URL is built
    before it, see [main_comments_url]). *)
Definition get_main_comments_body (r : response) : ret :=
  run_body (fun e => RQuad (JList []) (JStr "") (JBool true) (JStr e)) r (fun data =>
    let! code := py_get data "code" (JInt 0) in
    if py_ne_zero code then
      let! msg := message_of data in
      POk (RQuad (JList []) (JStr "") (JBool true) msg)
    else
      let! d := py_get data "data" (JObj []) in
      let! replies := py_get d "replies" (JList []) in
      let replies := or_empty_list replies in
      let! d' := py_get data "data" (JObj []) in
      let! cursor_info := py_get d' "cursor" (JObj []) in
      let! pagination_reply := py_get cursor_info "pagination_reply" (JObj []) in
      let! next_cursor := py_get pagination_reply "next_offset" (JStr "") in
      let! is_end := py_get cursor_info "is_end" (JBool true) in
      let is_end := if negb (truthy next_cursor) then JBool true else is_end in
      POk (RQuad replies next_cursor is_end JNull)).

(** [get_reply_comments] *)
Definition get_reply_comments_body (r : response) : ret :=
  run_body (fun e => RTriple (JList []) (JInt 0) (JStr e)) r (fun data =>
    let! code := py_get data "code" (JInt 0) in
    if py_ne_zero code then
      let! msg := message_of data in POk (RTriple (JList []) (JInt 0) msg)
    else
      let! d := py_get data "data" (JObj []) in
      let! replies := py_get d "replies" (JList []) in
      let replies := or_empty_list replies in
      let! d' := py_get data "data" (JObj []) in
      let! page_info := py_get d' "page" (JObj []) in
      let! total_count := py_get page_info "count" (JInt 0) in
      POk (RTriple replies total_count JNull)).

(** The endpoint decorated under a given [__name__]. *)
Definition endpoint_body (name : string) : response -> ret :=
  if String.eqb name "search_videos" then search_videos_body
  else if String.eqb name "get_video_aid" then get_video_aid_body
  else if String.eqb name "get_video_detail" then get_video_detail_body
  else if String.eqb name "get_user_card" then get_user_card_body
  else if String.eqb name "get_main_comments" then get_main_comments_body
  else get_reply_comments_body.

(** [_get_error_return(func_name, error)] *)
Definition get_error_return (func_name : string) (error : json) : ret :=
  if String.eqb func_name "search_videos" then RTriple (JList []) (JInt 0) error
  else if String.eqb func_name "get_video_aid" || String.eqb func_name "get_video_detail"
          || String.eqb func_name "get_user_card" then RPair JNull error
  else if String.eqb func_name "get_main_comments" then
    RQuad (JList []) (JStr "") (JBool true) error
  else if String.eqb func_name "get_reply_comments" then RTriple (JList []) (JInt 0) error
  else RPair JNull error.

(** One call of the wrapped function: it returns a tuple, or a
    [requests.exceptions.RequestException] escapes it. *)
Inductive attempt_out : Type :=
| AReturn (r : ret)
| ARaise (msg : string).

(** The loop of [retry_with_backoff]'s [wrapper]: [outs attempt] is what
    the call at that attempt yields ([wait_for_token] and the backoff
    sleeps do not change the returned value and are left out). *)
Fixpoint retry_loop (func_name : string) (max_retries : nat)
    (outs : nat -> attempt_out) (attempt fuel : nat) (last_error : json) : ret :=
  match fuel with
  | 0 => get_error_return func_name last_error
  | S fuel' =>
      match outs attempt with
      | AReturn result =>
          match ret_err result with
          | JNull => result
          | error =>
              if attempt <? max_retries
              then retry_loop func_name max_retries outs (S attempt) fuel' error
              else result
          end
      | ARaise e =>
          if attempt <? max_retries
          then retry_loop func_name max_retries outs (S attempt) fuel' (JStr e)
          else get_error_return func_name (JStr e)
      end
  end.

(** [retry_with_backoff(max_retries)(func)(...)]:
    [for attempt in range(max_retries + 1)]. *)
Definition retry_with_backoff (max_retries : nat) (func_name : string)
    (outs : nat -> attempt_out) : ret :=
  retry_loop func_name max_retries outs 0 (S max_retries) JNull.

(** A decorated endpoint ([@retry_with_backoff(max_retries=3)]) whose
    [i]-th HTTP round trip yields [resps i]. *)
Definition wrapped (func_name : string) (resps : nat -> response) : ret :=
  retry_with_backoff 3 func_name (fun i => AReturn (endpoint_body func_name (resps i))).

End Api.

(** The request [get_main_comments] builds: the string it signs and the
    URL it sends. *)
Module Wbi.

Local Open Scope char_scope.

Fixpoint in_str (c : ascii) (s : string) : bool :=
  match s with
  | EmptyString => false
  | String d rest => Ascii.eqb c d || in_str c rest
  end.

(** [urllib.parse]'s [_ALWAYS_SAFE]: letters, digits and [_.-~]. *)
Definition always_safe (c : ascii) : bool :=
  let n := nat_of_ascii c in
  (Nat.leb 65 n && Nat.leb n 90) || (Nat.leb 97 n && Nat.leb n 122)
  || (Nat.leb 48 n && Nat.leb n 57) || in_str c "_.-~".

(** Upper-case hexadecimal digit, as in [quote]'s ['%{:02X}']. *)
Definition hexdig (n : nat) : ascii :=
  match n with
  | 0 => "0" | 1 => "1" | 2 => "2" | 3 => "3" | 4 => "4" | 5 => "5"
  | 6 => "6" | 7 => "7" | 8 => "8" | 9 => "9" | 10 => "A" | 11 => "B"
  | 12 => "C" | 13 => "D" | 14 => "E" | _ => "F"
  end.

(** [urllib.parse.quote(s, safe)] over the UTF-8 bytes of [s]. *)
Fixpoint quote (safe : string) (s : string) : string :=
  match s with
  | EmptyString => EmptyString
  | String c rest =>
      if always_safe c || in_str c safe then String c (quote safe rest)
      else String "%" (String (hexdig (nat_of_ascii c / 16))
             (String (hexdig (nat_of_ascii c mod 16)) (quote safe rest)))
  end.

Local Close Scope char_scope.

(** The double quote character. *)
Definition dq : string := String (ascii_of_nat 34) EmptyString.

(** [pagination_str]: ['{"offset":"%s"}' % cursor] when [cursor] is
    non-empty, the literal ['{"offset":""}'] otherwise. *)
Definition pagination_str (cursor : string) : string :=
  if String.eqb cursor "" then "{" ++ dq ++ "offset" ++ dq ++ ":" ++ dq ++ dq ++ "}"
  else "{" ++ dq ++ "offset" ++ dq ++ ":" ++ dq ++ cursor ++ dq ++ "}".

(** [pagination_str_encoded = urllib.parse.quote(pagination_str)]
    (default [safe='/']). *)
Definition pagination_str_encoded (cursor : string) : string :=
  quote "/" (pagination_str cursor).

(** The value put in the URL: [urllib.parse.quote(pagination_str, safe=':')]. *)
Definition pagination_str_wire (cursor : string) : string :=
  quote ":" (pagination_str cursor).

(** [sign_str] for [oid], [cursor] and [wts = int(time.time())]; the
    constants are [mode = 2], [plat = 1], [type_val = 1],
    [web_location = 1315875]. *)
Definition sign_str (oid : N) (cursor : string) (wts : N) : string :=
  if negb (String.eqb cursor "") then
    "mode=2&oid=" ++ pretty oid ++ "&pagination_str=" ++ pagination_str_encoded cursor
    ++ "&plat=1&type=1&web_location=1315875&wts=" ++ pretty wts
  else
    "mode=2&oid=" ++ pretty oid ++ "&pagination_str=" ++ pagination_str_encoded cursor
    ++ "&plat=1&seek_rpid=&type=1&web_location=1315875&wts=" ++ pretty wts.

(** The string hashed into [w_rid]: [sign_str + mixin_key]. *)
Definition signed_string (oid : N) (cursor : string) (wts : N) (mixin_key : string) : string :=
  sign_str oid cursor wts ++ mixin_key.

(** The URL built by hand, with [w_rid = _md5(sign_str + mixin_key)]; it
    is sent as is ([requests] leaves [%XX] escapes and [:] untouched). *)
Definition main_comments_url (oid : N) (cursor : string) (wts : N) (w_rid : string) : string :=
  if negb (String.eqb cursor "") then
    "https://api.bilibili.com/x/v2/reply/wbi/main?oid=" ++ pretty oid
    ++ "&type=1&mode=2&pagination_str=" ++ pagination_str_wire cursor
    ++ "&plat=1&web_location=1315875&w_rid=" ++ w_rid ++ "&wts=" ++ pretty wts
  else
    "https://api.bilibili.com/x/v2/reply/wbi/main?oid=" ++ pretty oid
    ++ "&type=1&mode=2&pagination_str=" ++ pagination_str_wire cursor
    ++ "&plat=1&seek_rpid=&web_location=1315875&w_rid=" ++ w_rid ++ "&wts=" ++ pretty wts.

(** How the receiving side reads a query string: the part after the first
    [?], split on [&], each field split at its first [=], values
    percent-decoded. *)
Fixpoint query_of_url (url : string) : string :=
  match url with
  | EmptyString => EmptyString
  | String c rest => if Ascii.eqb c "?"%char then rest else query_of_url rest
  end.

Fixpoint split_on (sep : ascii) (s : string) : list string :=
  match s with
  | EmptyString => [EmptyString]
  | String c rest =>
      if Ascii.eqb c sep then EmptyString :: split_on sep rest
      else match split_on sep rest with
           | h :: t => String c h :: t
           | [] => [String c EmptyString]
           end
  end.

Fixpoint split_kv (s : string) : string * string :=
  match s with
  | EmptyString => (EmptyString, EmptyString)
  | String c rest =>
      if Ascii.eqb c "="%char then (EmptyString, rest)
      else let (k, v) := split_kv rest in (String c k, v)
  end.

Definition hex_val (c : ascii) : option nat :=
  let n := nat_of_ascii c in
  if Nat.leb 48 n && Nat.leb n 57 then Some (n - 48)
  else if Nat.leb 65 n && Nat.leb n 70 then Some (n - 55)
  else if Nat.leb 97 n && Nat.leb n 102 then Some (n - 87)
  else None.

(** [urllib.parse.unquote] at the byte level. *)
Fixpoint pct_decode (s : string) : string :=
  match s with
  | EmptyString => EmptyString
  | String c rest =>
      if Ascii.eqb c "%"%char then
        match rest with
        | String h (String l rest') =>
            match hex_val h, hex_val l with
            | Some a, Some b => String (ascii_of_nat (a * 16 + b)) (pct_decode rest')
            | _, _ => String c (pct_decode rest)
            end
        | _ => String c (pct_decode rest)
        end
      else String c (pct_decode rest)
  end.

Definition parse_query (q : string) : list (string * string) :=
  map split_kv (split_on "&"%char q).

Definition decode_pair (kv : string * string) : string * string :=
  (pct_decode kv.1, pct_decode kv.2).

End Wbi.

Module CookiePool.

(** [@dataclass CookieItem] *)
Record cookie_item : Type := mkItem {
  value : string;
  name : string;
  enabled : bool;
  is_valid : bool;
  fail_count : nat;
  max_fails : nat
}.

(** [CookieItem.mark_failed]: returns the updated item and whether it
    should be disabled. *)
Definition mark_failed (c : cookie_item) : cookie_item * bool :=
  let fc := S (fail_count c) in
  if Nat.leb (max_fails c) fc
  then (mkItem (value c) (name c) (enabled c) false fc (max_fails c), true)
  else (mkItem (value c) (name c) (enabled c) (is_valid c) fc (max_fails c), false).

(** [CookiePool]: [_cookies], [_index], [_strategy]. The [RLock] makes each
    method one atomic step. *)
Record pool : Type := mkPool {
  cookies : list cookie_item;
  index : nat;
  strategy : string
}.

(** [available = [c for c in self._cookies if c.enabled and c.is_valid]],
    each credential with its position in [_cookies] (its identity). *)
Fixpoint avail_from (i : nat) (cs : list cookie_item) : list (nat * cookie_item) :=
  match cs with
  | [] => []
  | c :: rest =>
      if enabled c && is_valid c then (i, c) :: avail_from (S i) rest
      else avail_from (S i) rest
  end.

Definition available (p : pool) : list (nat * cookie_item) := avail_from 0 (cookies p).

(** The selection shared by [get_cookie] and [get_cookie_item]; [rnd] is
    the index [random.choice] draws. *)
Definition select (p : pool) (rnd : nat) : option ((nat * cookie_item) * pool) :=
  let av := available p in
  match av with
  | [] => None
  | _ =>
      if String.eqb (strategy p) "random" then
        match av !! (rnd mod length av) with
        | Some x => Some (x, p)
        | None => None
        end
      else
        let idx := index p mod length av in
        match av !! idx with
        | Some x => Some (x, mkPool (cookies p) (S idx) (strategy p))
        | None => None
        end
  end.

(** [get_cookie()] returns [cookie.value]. *)
Definition get_cookie (p : pool) (rnd : nat) : option string * pool :=
  match select p rnd with
  | None => (None, p)
  | Some ((_, c), p') => (Some (value c), p')
  end.

(** [get_cookie_item()] returns the item itself. *)
Definition get_cookie_item (p : pool) (rnd : nat) : option (nat * cookie_item) * pool :=
  match select p rnd with
  | None => (None, p)
  | Some (x, p') => (Some x, p')
  end.

(** The loop of [mark_invalid]: the first item whose value matches, then
    [break]. *)
Fixpoint mark_first (v : string) (permanent : bool) (cs : list cookie_item)
    : list cookie_item :=
  match cs with
  | [] => []
  | c :: rest =>
      if String.eqb (value c) v then
        (if permanent
         then mkItem (value c) (name c) false false (fail_count c) (max_fails c)
         else (mark_failed c).1) :: rest
      else c :: mark_first v permanent rest
  end.

(** [mark_invalid(cookie_value, permanent=False)] *)
Definition mark_invalid (p : pool) (v : string) (permanent : bool) : pool :=
  mkPool (mark_first v permanent (cookies p)) (index p) (strategy p).

(** The pool's operations after loading. *)
Inductive pool_op : Type :=
| OpGetCookie (rnd : nat)
| OpGetItem (rnd : nat)
| OpMark (v : string) (permanent : bool).

(** What an operation returned; for [get_cookie] also the position of the
    credential it selected. *)
Inductive pool_out : Type :=
| OutCookie (sel : option nat) (r : option string)
| OutItem (r : option (nat * cookie_item))
| OutMark.

Definition run_op (p : pool) (op : pool_op) : pool_out * pool :=
  match op with
  | OpGetCookie rnd =>
      let sel := match select p rnd with Some ((i, _), _) => Some i | None => None end in
      let (r, p') := get_cookie p rnd in (OutCookie sel r, p')
  | OpGetItem rnd => let (r, p') := get_cookie_item p rnd in (OutItem r, p')
  | OpMark v perm => (OutMark, mark_invalid p v perm)
  end.

Fixpoint run_ops (p : pool) (ops : list pool_op) : list pool_out * pool :=
  match ops with
  | [] => ([], p)
  | op :: rest =>
      let (o, p1) := run_op p op in
      let (os, p2) := run_ops p1 rest in (o :: os, p2)
  end.

(** The credential (position) an output hands out, if any. *)
Definition out_sel (o : pool_out) : option nat :=
  match o with
  | OutCookie sel _ => sel
  | OutItem (Some (i, _)) => Some i
  | _ => None
  end.

End CookiePool.

Module RateLimiter.

Local Open Scope Q_scope.

(** [TokenBucket]: [rate], [capacity], [tokens], [last_time] (times are
    [time.time()] readings). *)
Record bucket : Type := mkBucket {
  rate : Q;
  capacity : Q;
  tokens : Q;
  last_time : Q
}.

(** [_refill()] at time [now]. *)
Definition refill (now : Q) (b : bucket) : bucket :=
  mkBucket (rate b) (capacity b)
    (Qmin (capacity b) (tokens b + (now - last_time b) * rate b)) now.

Definition with_tokens (b : bucket) (t : Q) : bucket :=
  mkBucket (rate b) (capacity b) t (last_time b).

(** [set_rate(rate)] at time [now]. *)
Definition set_rate (now r : Q) (b : bucket) : bucket :=
  let b := refill now b in mkBucket r (capacity b) (tokens b) (last_time b).

(** The first locked block of [acquire(tokens, blocking)] at time [now].
    [wait_time = (tokens - self.tokens) / self.rate] raises
    [ZeroDivisionError] when [rate == 0]; the [with] block then releases
    the lock, the refill done. *)
Inductive enter_result : Type :=
| Granted (b : bucket)
| Refused (b : bucket)
| MustWait (wait_time : Q) (b : bucket)
| Raised (msg : string) (b : bucket).

Definition acquire_enter (now n : Q) (blocking : bool) (b : bucket) : enter_result :=
  let b := refill now b in
  if Qle_bool n (tokens b) then Granted (with_tokens b (tokens b - n))
  else if negb blocking then Refused b
  else if Qeq_bool (rate b) 0 then Raised "float division by zero"%string b
  else MustWait ((n - tokens b) / rate b) b.

(** [time.sleep(wait_time)]: raises [ValueError] on a negative length. *)
Definition sleep (wait_time : Q) : pyres unit :=
  if Qle_bool 0 wait_time then POk tt
  else PExc "sleep length must be non-negative"%string.

(** [src/spider/rate_limiter.py]: after [time.sleep(wait_time)] the lock
    is taken once more at time [t1], refilled, and [tokens] deducted
    unconditionally. [during] is what other threads did to the bucket
    while the lock was released. *)
Definition acquire_spider (t0 : Q) (during : bucket -> bucket) (t1 : Q)
    (n : Q) (blocking : bool) (b : bucket) : pyres bool * bucket :=
  match acquire_enter t0 n blocking b with
  | Granted b' => (POk true, b')
  | Refused b' => (POk false, b')
  | Raised e b' => (PExc e, b')
  | MustWait w b' =>
      match sleep w with
      | PExc e => (PExc e, b')
      | POk _ =>
          let b2 := refill t1 (during b') in (POk true, with_tokens b2 (tokens b2 - n))
      end
  end.

(** [src/spider-py/rate_limiter.py]: [while True:] around the locked
    block; each later attempt happens at the time given in [sched], after
    the other threads' updates listed there. [None]: still waiting when
    [sched] runs out. *)
Fixpoint acquire_py (t0 : Q) (sched : list (Q * (bucket -> bucket)))
    (n : Q) (blocking : bool) (b : bucket) : option (pyres bool) * bucket :=
  match acquire_enter t0 n blocking b with
  | Granted b' => (Some (POk true), b')
  | Refused b' => (Some (POk false), b')
  | Raised e b' => (Some (PExc e), b')
  | MustWait w b' =>
      match sleep w with
      | PExc e => (Some (PExc e), b')
      | POk _ =>
          match sched with
          | [] => (None, b')
          | (t1, during) :: rest => acquire_py t1 rest n blocking (during b')
          end
      end
  end.

End RateLimiter.

Module Crawler.
Import Storage Api.

(** The [while True:] page loop of [comment_worker] for one video, on the
    progress store: [pages] are the successive results of
    [get_main_comments(aid, cursor, session)]. The emission of each page's
    replies does not touch the progress store and is left out here. The
    model stops when [pages] runs out. *)
Fixpoint comment_pages (pages : list ret) (data : gmap string progress_entry)
    (bvid : string) (cursor aid : json) : gmap string progress_entry :=
  match pages with
  | [] => data
  | RQuad replies next_cursor is_end error :: rest =>
      if truthy error then save_video_comment_progress data bvid cursor aid
      else if truthy is_end || negb (truthy replies) then mark_video_comments_done data bvid
      else
        let data' := save_video_comment_progress data bvid next_cursor aid in
        comment_pages rest data' bvid next_cursor aid
  | _ :: _ => data
  end.

(** [comment_worker]'s handling of one video taken from [video_queue]:
    [video_aid] is [video.get("aid")], [fetched] the result of
    [get_video_aid(bvid, session)] when it is called. *)
Definition comment_worker_video (resume : bool) (data : gmap string progress_entry)
    (bvid : string) (video_aid : json) (fetched : ret) (pages : list ret)
    : gmap string progress_entry :=
  let progress := get_video_comment_progress data bvid in
  if resume && pe_done progress then data else
  let aid :=
    if truthy video_aid then Some video_aid
    else if truthy (pe_aid progress) then Some (pe_aid progress)
    else match fetched with
         | RPair a error => if truthy error then None else Some a
         | _ => None
         end in
  match aid with
  | None => data
  | Some aid =>
      let cursor := if resume then pe_cursor progress else JStr "" in
      comment_pages pages data bvid cursor aid
  end.

(** The end of [run]: [remaining_mids = self.user_mids - self.saved_mids],
    then [update_pending_mids(remaining_mids)]. *)
Definition shutdown_pending (user_mids saved_mids : gset string) (f : pending_file)
    : pending_file :=
  update_pending_mids (user_mids ∖ saved_mids) f.

End Crawler.

(** Vocabulary of the statements below. *)
Module Spec.
Import Api.

(** The functions [api.py] decorates with [retry_with_backoff]. *)
Definition endpoint_names : list string :=
  ["search_videos"; "get_video_aid"; "get_video_detail"; "get_user_card";
   "get_main_comments"; "get_reply_comments"].

(** The error an attempt ends with, as the wrapper sees it. *)
Definition attempt_error (o : attempt_out) : json :=
  match o with
  | AReturn r => ret_err r
  | ARaise e => JStr e
  end.

(** An attempt of endpoint [name] that fails: a transport exception
    escaping, or the endpoint's own result carrying an error. *)
Definition failed_attempt (name : string) (o : attempt_out) : Prop :=
  match o with
  | ARaise _ => True
  | AReturn r => (exists resp, r = endpoint_body name resp) /\ ret_err r <> JNull
  end.

(** The value at a path of object keys in a server response, if every
    step is an object holding the key. *)
Fixpoint path_lookup (j : json) (path : list string) : option json :=
  match path with
  | [] => Some j
  | k :: rest =>
      match j with
      | JObj kvs => match obj_lookup k kvs with Some v => path_lookup v rest | None => None end
      | _ => None
      end
  end.

(** The number of [mark_invalid(v, permanent=False)] calls in a run. *)
Fixpoint count_marks (v : string) (ops : list CookiePool.pool_op) : nat :=
  match ops with
  | [] => 0
  | CookiePool.OpMark w false :: rest =>
      (if String.eqb w v then 1 else 0) + count_marks v rest
  | _ :: rest => count_marks v rest
  end.

(** An output hands out the credential value [v]. *)
Definition hands_out_value (v : string) (o : CookiePool.pool_out) : Prop :=
  match o with
  | CookiePool.OutCookie _ (Some s) => s = v
  | CookiePool.OutItem (Some (_, c)) => CookiePool.value c = v
  | _ => False
  end.

(** Two credentials loaded with the same value. *)
Definition dup_pool : CookiePool.pool :=
  CookiePool.mkPool [CookiePool.mkItem "v" "a" true true 0 3;
                     CookiePool.mkItem "v" "b" true true 0 3] 0 "round_robin".

(** The positions of the available credentials are [P] in every state of
    a run. *)
Fixpoint avail_fixed (P : list nat) (p : CookiePool.pool) (ops : list CookiePool.pool_op) : Prop :=
  fst <$> CookiePool.available p = P
  /\ match ops with
     | [] => True
     | op :: rest => avail_fixed P (CookiePool.run_op p op).2 rest
     end.

(** How many outputs hand out the credential at position [j]. *)
Fixpoint times_selected (j : nat) (outs : list CookiePool.pool_out) : nat :=
  match outs with
  | [] => 0
  | o :: rest =>
      (match CookiePool.out_sel o with Some x => if Nat.eqb x j then 1 else 0 | None => 0 end)
      + times_selected j rest
  end.

(** How many outputs are successful selections. *)
Fixpoint selections (outs : list CookiePool.pool_out) : nat :=
  match outs with
  | [] => 0
  | o :: rest =>
      (match CookiePool.out_sel o with Some _ => 1 | None => 0 end) + selections rest
  end.

(** Among the [m] steps [s, s+1, ...], those landing on residue [r]
    modulo [k]. *)
Fixpoint hits (k r s m : nat) : nat :=
  match m with
  | 0 => 0
  | S m' => (if Nat.eqb (s mod k) r then 1 else 0) + hits k r (S s) m'
  end.

End Spec.

(** The id ledgers and the pending-user file as the text [storage.py]
    writes and reads. A file's decoded text is a [string] whose characters
    stand for the code points U+0000 to U+00FF; writing in text mode adds
    no line-ending translation (POSIX). *)
Module Ledger.
Import Storage.

Local Open Scope char_scope.

Definition nl : ascii := "010".
Definition cr : ascii := "013".

(** Reading in text mode ([newline=None]): ["\r\n"] and a lone ["\r"]
    both read as ["\n"]. *)
Fixpoint universal_newlines (s : string) : string :=
  match s with
  | EmptyString => EmptyString
  | String c rest =>
      if Ascii.eqb c cr then
        match rest with
        | String d rest' =>
            if Ascii.eqb d nl then String nl (universal_newlines rest')
            else String nl (universal_newlines rest)
        | EmptyString => String nl EmptyString
        end
      else String c (universal_newlines rest)
  end.

(** [for line in f]: each line keeps its ["\n"]; a last line without one
    is yielded when it is not empty. [cur] is the line read so far. *)
Fixpoint lines_from (cur : string) (s : string) : list string :=
  match s with
  | EmptyString => if String.eqb cur "" then [] else [cur]
  | String c rest =>
      if Ascii.eqb c nl then (cur ++ String nl EmptyString)%string :: lines_from EmptyString rest
      else lines_from (cur ++ String c EmptyString)%string rest
  end.

Definition file_lines (s : string) : list string := lines_from EmptyString s.

(** [str.isspace] on U+0000..U+00FF. *)
Definition py_isspace (c : ascii) : bool :=
  let n := nat_of_ascii c in
  (Nat.leb 9 n && Nat.leb n 13) || (Nat.leb 28 n && Nat.leb n 32)
  || Nat.eqb n 133 || Nat.eqb n 160.

Fixpoint lstrip (s : string) : string :=
  match s with
  | EmptyString => EmptyString
  | String c rest => if py_isspace c then lstrip rest else s
  end.

Fixpoint rstrip (s : string) : string :=
  match s with
  | EmptyString => EmptyString
  | String c rest =>
      let r := rstrip rest in
      if py_isspace c && String.eqb r "" then EmptyString else String c r
  end.

(** [str.strip()] *)
Definition strip (s : string) : string := lstrip (rstrip s).

Local Close Scope char_scope.

(** A ledger file under [sent_records/]: [None] when it does not exist,
    else its text. *)
Definition ledger_file := option string.

(** [_record_sent_id(record_file, id_value)]: mode ["a"] creates the file
    when it is missing and appends [f"{id_value}\n"]. *)
Definition record_sent_id (f : ledger_file) (id_value : string) : ledger_file :=
  Some (default "" f ++ id_value ++ String nl "")%string.

(** [_load_sent_ids(record_file)] *)
Definition load_sent_ids (f : ledger_file) : gset string :=
  match f with
  | None => ∅
  | Some text =>
      fold_left (fun ids line =>
                   let line := strip line in
                   if String.eqb line "" then ids else {[line]} ∪ ids)
        (file_lines (universal_newlines text)) ∅
  end.

(** The text of a ledger after the sink calls of [log], starting from the
    file [f0]: [_record_sent_id(file, k)] for each [ERecord file k]. *)
Definition ledger_text (file : string) (f0 : ledger_file) (log : list event) : ledger_file :=
  foldl (fun f ev =>
           match ev with
           | ERecord g k => if String.eqb g file then record_sent_id f k else f
           | ESend _ _ => f
           end) f0 log.

(** The text written for a [pending_file]: [f.write(f"{mid}\n")] for each
    line, whether by [update_pending_mids] or by [save_pending_mid]. *)
Fixpoint write_lines (ls : list string) : string :=
  match ls with
  | [] => ""
  | m :: rest => m ++ String nl "" ++ write_lines rest
  end.

Definition pending_text (f : pending_file) : ledger_file :=
  match f with
  | None => None
  | Some ls => Some (write_lines ls)
  end.

(** [save_pending_mid(mid)] = [_record_sent_id("pending_mids.txt", str(mid))]. *)
Definition save_pending_mid (mid : string) (f : pending_file) : pending_file :=
  Some (default [] f ++ [mid]).

(** [get_pending_mids()] *)
Definition get_pending_mids (f : pending_file) : gset string :=
  load_sent_ids (pending_text f).

End Ledger.

(** The user ids [BiliCrawler] collects: [_add_user_mid] and the restore
    step at the start of [run]. *)
Module Mids.
Import Storage Ledger.

(** [self.user_mids], the pending-user file, and the ids put on
    [self.user_mid_queue], in order. *)
Record mid_state : Type := mkMids {
  user_mids : gset string;
  pending : pending_file;
  queued : list string
}.

(** [_add_user_mid(mid)] with [mid_str = str(mid)]; [saved_mids] is
    [self.saved_mids]. *)
Definition add_user_mid (resume : bool) (saved_mids : gset string) (mid_str : string)
    (s : mid_state) : mid_state :=
  if bool_decide (mid_str ∈ user_mids s) then s
  else
    let um := {[mid_str]} ∪ user_mids s in
    if resume && bool_decide (mid_str ∈ saved_mids) then mkMids um (pending s) (queued s)
    else mkMids um (save_pending_mid mid_str (pending s)) (queued s ++ [mid_str]).

Fixpoint add_user_mids (resume : bool) (saved_mids : gset string) (mids : list string)
    (s : mid_state) : mid_state :=
  match mids with
  | [] => s
  | m :: rest => add_user_mids resume saved_mids rest (add_user_mid resume saved_mids m s)
  end.

(** The restore loop of [run] over [get_pending_mids()], in the set's
    iteration order. *)
Definition restore_pending (saved_mids pending_mids : gset string) (s : mid_state) : mid_state :=
  foldl (fun s mid =>
           if bool_decide (mid ∈ saved_mids) then s
           else mkMids ({[mid]} ∪ user_mids s) (pending s) (queued s ++ [mid]))
    s (elements pending_mids).

(** [BiliCrawler.__init__] then [run] with [resume] and
    [resume_pending_mids] set, up to the start of the workers: the state
    the workers' [_add_user_mid] calls start from. *)
Definition run_start (saved_mids : gset string) (f : pending_file) : mid_state :=
  restore_pending saved_mids (get_pending_mids f) (mkMids ∅ f []).

End Mids.

(** The page plan of [search_videos_parallel] and the split of the new
    videos among the detail threads. *)
Module Search.

(** The pages [search_worker] requests:
    [thread_id * pages_per_thread + page] for [page] in
    [range(1, pages_per_thread + 1)]. *)
Definition search_worker_pages (pages_per_thread thread_id : nat) : list nat :=
  map (fun page => thread_id * pages_per_thread + page) (seq 1 pages_per_thread).

(** All threads [i] in [range(n_threads)]. *)
Definition search_pages (n_threads pages_per_thread : nat) : list nat :=
  concat (map (search_worker_pages pages_per_thread) (seq 0 n_threads)).

Fixpoint range_step_go (fuel i stop step : nat) : list nat :=
  match fuel with
  | 0 => []
  | S fuel' => if Nat.ltb i stop then i :: range_step_go fuel' (i + step) stop step else []
  end.

(** [range(start, stop, step)] for [step >= 0]; with [step >= 1] it has at
    most [stop - start] elements, the fuel given. *)
Definition py_range_step (start stop step : nat) : pyres (list nat) :=
  if Nat.eqb step 0 then PExc "range() arg 3 must not be zero"
  else POk (range_step_go (stop - start) start stop step).

(** The chunks handed to [video_detail_worker]: after the early [return]
    on an empty list, [chunk_size = (len + n_threads - 1) // n_threads]
    and [unique_videos[i:i + chunk_size]] for [i] in
    [range(0, len, chunk_size)]. *)
Definition video_chunks {A} (unique_videos : list A) (n_threads : nat) : pyres (list (list A)) :=
  match unique_videos with
  | [] => POk []
  | _ =>
      if Nat.eqb n_threads 0 then PExc "integer division or modulo by zero" else
      let chunk_size := (length unique_videos + n_threads - 1) / n_threads in
      let! starts := py_range_step 0 (length unique_videos) chunk_size in
      POk (map (fun i => take chunk_size (drop i unique_videos)) starts)
  end.

End Search.

(** [api.py]'s WBI key handling: [_get_mixin_key], [_get_wbi_keys] and
    the cache of [get_wbi_mixin_key]. Strings are over U+0000..U+00FF. *)
Module WbiKeys.
Import Wbi.

Definition WBI_MIXIN_KEY_ENC_TAB : list nat :=
  [46; 47; 18; 2; 53; 8; 23; 32; 15; 50; 10; 31; 58; 3; 45; 35;
   27; 43; 5; 49; 33; 9; 42; 19; 29; 28; 14; 39; 12; 38; 41; 13;
   37; 48; 7; 16; 24; 55; 40; 61; 26; 17; 0; 1; 60; 51; 30; 4;
   22; 25; 54; 21; 56; 59; 6; 63; 57; 62; 11; 36; 20; 34; 44; 52].

(** [orig[i]] for a non-negative [i]. *)
Definition py_index (s : string) (i : nat) : pyres ascii :=
  match String.get i s with
  | Some c => POk c
  | None => PExc "string index out of range"
  end.

(** [[orig[i] for i in idx]] *)
Fixpoint index_all (orig : string) (idx : list nat) : pyres (list ascii) :=
  match idx with
  | [] => POk []
  | i :: rest =>
      let! c := py_index orig i in
      let! cs := index_all orig rest in
      POk (c :: cs)
  end.

(** [_get_mixin_key(orig)]: [''.join(...)[:32]]. *)
Definition get_mixin_key (orig : string) : pyres string :=
  let! cs := index_all orig WBI_MIXIN_KEY_ENC_TAB in
  POk (String.substring 0 32 (String.string_of_list_ascii cs)).

(** [s.rsplit(sep, 1)] *)
Fixpoint rsplit1 (sep : ascii) (s : string) : list string :=
  match s with
  | EmptyString => [EmptyString]
  | String c rest =>
      match rsplit1 sep rest with
      | [pre; post] => [String c pre; post]
      | _ => if Ascii.eqb c sep then [EmptyString; rest] else [s]
      end
  end.

(** [url.rsplit('/', 1)[1].split('.')[0]] *)
Definition url_key (url : json) : pyres string :=
  match url with
  | JStr s =>
      match rsplit1 "/"%char s with
      | [_; last] =>
          match split_on "."%char last with
          | k :: _ => POk k
          | [] => POk ""
          end
      | _ => PExc "list index out of range"
      end
  | _ => PExc ("'" ++ type_name url ++ "' object has no attribute 'rsplit'")
  end.

(** [_get_wbi_keys(session)]: [response] is the decoded body of the [nav]
    request, or the exception the request or [response.json()] raised.
    [None] stands for [(None, None)]. *)
Definition get_wbi_keys (response : pyres json) : option (string * string) :=
  match (let! data := response in
         let! d := py_get data "data" (JObj []) in
         let! wbi_img := py_get d "wbi_img" JNull in
         if truthy wbi_img then
           let! img_url := py_subscript wbi_img "img_url" in
           let! sub_url := py_subscript wbi_img "sub_url" in
           let! img_key := url_key img_url in
           let! sub_key := url_key sub_url in
           POk (Some (img_key, sub_key))
         else POk None) with
  | POk (Some ks) => Some ks
  | _ => None
  end.






End WbiKeys.

(** [_handle_cookie_error] and [is_cookie_error], and [get_status] /
    [__len__] of the pool. *)
Module PoolUse.
Import CookiePool.

(** [is_cookie_error(code)]: [code in (-101, -352, -412)] for the decoded
    [data.get("code", 0)] ([True] and [False] equal 1 and 0). *)
Definition is_cookie_error (code : json) : bool :=
  match code with
  | JInt z => Z.eqb z (-101) || Z.eqb z (-352) || Z.eqb z (-412)
  | _ => false
  end.

(** [_handle_cookie_error(session, code)]: [current_cookie] is the
    session's [_current_cookie], the value [create_session] got from
    [pool.get_cookie()]. *)
Definition handle_cookie_error (current_cookie : option string) (code : json) (p : pool) : pool :=
  if is_cookie_error code then
    match current_cookie with
    | Some v => if String.eqb v "" then p else mark_invalid p v false
    | None => p
    end
  else p.

(** A run of endpoint responses: the session's cookie and the response's
    [code]. *)
Fixpoint handle_cookie_errors (evs : list (option string * json)) (p : pool) : pool :=
  match evs with
  | [] => p
  | (cookie, code) :: rest => handle_cookie_errors rest (handle_cookie_error cookie code p)
  end.

(** [get_status()]: [total], [enabled], [valid], [strategy]. *)
Definition get_status (p : pool) : nat * nat * nat * string :=
  (length (cookies p),
   length (List.filter enabled (cookies p)),
   length (List.filter (fun c => enabled c && is_valid c) (cookies p)),
   strategy p).

(** [len(pool)] *)
Definition pool_len (p : pool) : nat :=
  length (List.filter (fun c => enabled c && is_valid c) (cookies p)).

End PoolUse.

(** [CookiePool._load_cookies] on the decoded [cookies.json]. *)
Module CookieLoad.

(** A [CookieItem] as [_load_cookies] builds it: [value], [name] and
    [enabled] hold whatever the configuration file holds. *)
Record loaded_cookie : Type := mkLoaded {
  l_value : json;
  l_name : json;
  l_enabled : json
}.

(** [for x in j:] over a decoded JSON value: a dict yields its keys, a
    string its characters. *)
Definition py_iter (j : json) : pyres (list json) :=
  match j with
  | JList l => POk l
  | JObj kvs => POk (map (fun kv => JStr kv.1) kvs)
  | JStr s => POk (map (fun c => JStr (String c EmptyString)) (String.list_ascii_of_string s))
  | _ => PExc ("'" ++ type_name j ++ "' object is not iterable")%string
  end.

(** The loop over [config.get("cookies", [])]: the cookies appended so
    far, and the exception that ended the loop, if any. *)
Fixpoint load_items (items : list json) (acc : list loaded_cookie)
    : list loaded_cookie * option string :=
  match items with
  | [] => (acc, None)
  | item :: rest =>
      match item with
      | JObj kvs =>
          let enabled := default (JBool true) (obj_lookup "enabled" kvs) in
          if truthy enabled then
            let value := default (JStr "") (obj_lookup "value" kvs) in
            let name := default (JStr "") (obj_lookup "name" kvs) in
            if truthy value then load_items rest (acc ++ [mkLoaded value name enabled])
            else load_items rest acc
          else load_items rest acc
      | _ => (acc, Some ("'" ++ type_name item ++ "' object has no attribute 'get'")%string)
      end
  end.

(** What [_load_cookies] leaves: [_strategy], [_cookies], and whether
    [validate_all()] is called. *)
Record load_result : Type := mkLoad {
  r_strategy : json;
  r_cookies : list loaded_cookie;
  r_validate : bool
}.

Definition initial_load : load_result := mkLoad (JStr "round_robin") [] false.

(** [_load_cookies()]: [config] is [None] when the file does not exist,
    else the result of [json.load(f)]. Every exception is caught, after
    the assignments made before it. *)
Definition load_cookies (config : option (pyres json)) : load_result :=
  match config with
  | None => initial_load
  | Some (PExc _) => initial_load
  | Some (POk config) =>
      match py_get config "settings" (JObj []) with
      | PExc _ => initial_load
      | POk settings =>
          match py_get settings "strategy" (JStr "round_robin") with
          | PExc _ => initial_load
          | POk strategy =>
              match (let! items := py_get config "cookies" (JList []) in py_iter items) with
              | PExc _ => mkLoad strategy [] false
              | POk items =>
                  match load_items items [] with
                  | (acc, Some _) => mkLoad strategy acc false
                  | (acc, None) =>
                      match py_get settings "validate_on_load" (JBool false) with
                      | POk v => mkLoad strategy acc (truthy v)
                      | PExc _ => mkLoad strategy acc false
                      end
                  end
              end
          end
      end
  end.

End CookieLoad.

(** The de-duplication of the search results in [search_videos_parallel]. *)
Module Dedup.

(** [a == b] for hashable decoded JSON values ([True == 1],
    [False == 0]). *)
Definition py_eq_key (a b : json) : bool :=
  match a, b with
  | JStr s, JStr t => String.eqb s t
  | JInt z, JInt w => Z.eqb z w
  | JInt z, JBool c => Z.eqb z (if c then 1 else 0)
  | JBool c, JInt z => Z.eqb z (if c then 1 else 0)
  | JBool c, JBool d => Bool.eqb c d
  | JNull, JNull => true
  | _, _ => false
  end.

(** The loop over [results] with [seen_bvids]: [bvid = video.get("bvid")];
    a truthy list or dict [bvid] cannot be looked up in the set. *)
Fixpoint dedup_videos (seen_bvids : list json) (results : list json) : pyres (list json) :=
  match results with
  | [] => POk []
  | video :: rest =>
      let! bvid := py_get video "bvid" JNull in
      if truthy bvid then
        match bvid with
        | JList _ | JObj _ => PExc ("unhashable type: '" ++ type_name bvid ++ "'")%string
        | _ =>
            if existsb (py_eq_key bvid) seen_bvids then dedup_videos seen_bvids rest
            else let! unique := dedup_videos (bvid :: seen_bvids) rest in POk (video :: unique)
        end
      else dedup_videos seen_bvids rest
  end.

End Dedup.

(* ================================================================== *)
(** * Properties *)
(* ================================================================== *)

Import Storage Api Crawler Spec.

(** ** The progress store *)

Lemma save_progress_lookup_same (data : gmap string progress_entry)
    (bvid : string) (cursor aid : json) :
  save_video_comment_progress data bvid cursor aid !! bvid =
  Some (mkEntry (match data !! bvid with Some e => pe_done e | None => false end)
          cursor
          (match aid with
           | JNull => match data !! bvid with Some e => pe_aid e | None => JNull end
           | _ => aid
           end)).
Proof.
  unfold save_video_comment_progress. rewrite lookup_insert_eq. f_equal.
  destruct (data !! bvid) as [e|]; destruct aid; reflexivity.
Qed.

(** C10: [save_video_comment_progress(bvid, cursor, aid)] changes only the
    entry of [bvid]; there it sets [cursor], sets [aid] when [aid] is not
    [None], keeps [done] of an existing entry, and creates a missing entry
    with [done = False]. *)
Theorem save_video_comment_progress_frame (data : gmap string progress_entry)
    (bvid : string) (cursor aid : json) :
  (forall b, b <> bvid -> save_video_comment_progress data bvid cursor aid !! b = data !! b)
  /\ save_video_comment_progress data bvid cursor aid !! bvid =
     Some (mkEntry (match data !! bvid with Some e => pe_done e | None => false end)
             cursor
             (match aid with
              | JNull => match data !! bvid with Some e => pe_aid e | None => JNull end
              | _ => aid
              end)).
Proof.
  split; [|apply save_progress_lookup_same].
  intros b Hb. unfold save_video_comment_progress. rewrite lookup_insert_ne; congruence.
Qed.

(** ** Shutdown of the pending-user file *)

(** C9: at the end of [run] the pending file is absent exactly when
    [user_mids - saved_mids] is empty; otherwise it holds exactly the ids of
    that difference, one per line, without duplicates. *)
Theorem shutdown_pending_exact (user_mids saved_mids : gset string) (f : pending_file) :
  match shutdown_pending user_mids saved_mids f with
  | None => user_mids ∖ saved_mids = ∅
  | Some lines =>
      NoDup lines /\ lines <> []
      /\ (forall x, x ∈ lines <-> x ∈ user_mids /\ x ∉ saved_mids)
  end.
Proof.
  unfold shutdown_pending, update_pending_mids.
  case_bool_decide as Hempty; [exact Hempty|].
  split; [apply NoDup_elements|]. split.
  - intros Hnil. apply Hempty. apply elements_empty_iff in Hnil. set_solver.
  - intros x. rewrite elem_of_elements. set_solver.
Qed.

(** ** The comment walk and [done] *)

(** C3 (counterexample): with [resume] disabled, [comment_worker] walks a
    video whose entry already has [done = True]; after one page with a
    next offset ["AA"] and a failing second page, the entry still has
    [done = True] and now stores the cursor ["AA"]. *)
Lemma comment_worker_stores_cursor_on_done_entry :
  comment_worker_video false (mark_video_comments_done ∅ "BV1") "BV1" (JInt 7)
    (RPair JNull JNull)
    [RQuad (JList [JObj [("rpid", JInt 1)]]) (JStr "AA") (JBool false) JNull;
     RQuad (JList []) (JStr "") (JBool true) (JStr "timeout")]
  !! "BV1" = Some (mkEntry true (JStr "AA") (JInt 7)).
Proof. vm_compute. reflexivity. Qed.

(** C3 (as the code does it): when the entry of [bvid] has [done = True],
    [comment_worker] with [resume] enabled skips the video and leaves the
    progress store unchanged; [save_video_comment_progress] itself does not
    look at [done]: it keeps [done = True] and stores the cursor given. *)
Theorem done_video_skipped_under_resume (data : gmap string progress_entry)
    (bvid : string) (Hdone : pe_done (get_video_comment_progress data bvid) = true) :
  (forall video_aid fetched pages,
      comment_worker_video true data bvid video_aid fetched pages = data)
  /\ (forall cursor aid,
      exists e, save_video_comment_progress data bvid cursor aid !! bvid = Some e
                /\ pe_done e = true /\ pe_cursor e = cursor).
Proof.
  split.
  - intros video_aid fetched pages. unfold comment_worker_video. rewrite Hdone. reflexivity.
  - intros cursor aid.
    pose proof (save_progress_lookup_same data bvid cursor aid) as Hb.
    eexists. split; [exact Hb|]. split; [|reflexivity]. simpl.
    unfold get_video_comment_progress in Hdone.
    destruct (data !! bvid); [exact Hdone|discriminate].
Qed.

Lemma done_video_skipped_under_resume_witness :
  pe_done (get_video_comment_progress (mark_video_comments_done ∅ "BV1") "BV1") = true
  /\ comment_worker_video true (mark_video_comments_done ∅ "BV1") "BV1" (JInt 7)
       (RPair JNull JNull) [RQuad (JList [JInt 1]) (JStr "AA") (JBool false) JNull]
     = mark_video_comments_done ∅ "BV1".
Proof.
  split; [vm_compute; reflexivity|].
  apply (done_video_skipped_under_resume (mark_video_comments_done ∅ "BV1") "BV1").
  vm_compute. reflexivity.
Defined.

(** ** The token bucket *)

Section TokenBucket.
Import RateLimiter.
Local Open Scope Q_scope.

(** C1 (the [src/spider] variant): a bucket with [rate = 2],
    [capacity = 5] and no tokens at time 0. [acquire(1)] must wait
    [(1 - 0) / 2 = 0.5] s; while it sleeps, another thread calls
    [set_rate(0.5)]. Woken at time 0.5, the call refills only 0.25 tokens,
    deducts 1 anyway and returns [True] with the bucket at -0.75 tokens. *)
Lemma acquire_spider_leaves_negative_tokens :
  acquire_enter 0 1 true (mkBucket 2 5 0 0) = MustWait ((1 - 0) / 2) (mkBucket 2 5 (Qmin 5 (0 + (0 - 0) * 2)) 0)
  /\ fst (acquire_spider 0 (set_rate 0 (1 # 2)) (1 # 2) 1 true (mkBucket 2 5 0 0)) = POk true
  /\ tokens (snd (acquire_spider 0 (set_rate 0 (1 # 2)) (1 # 2) 1 true (mkBucket 2 5 0 0)))
     == -3 # 4.
Proof.
  split; [reflexivity|]. split; [reflexivity|]. vm_compute. reflexivity.
Qed.

(** The [src/spider-py] variant loops until the refilled bucket covers the
    request: whenever it returns [True], the bucket is not negative,
    whatever other threads did between its attempts. *)
Lemma acquire_enter_granted_nonneg (now n : Q) (blocking : bool) (b b' : bucket) :
  acquire_enter now n blocking b = Granted b' -> 0 <= tokens b'.
Proof.
  unfold acquire_enter. destruct (Qle_bool n (tokens (refill now b))) eqn:Hle.
  - intros H. injection H as <-. simpl. apply Qle_bool_iff in Hle.
    apply Qle_minus_iff in Hle. exact Hle.
  - destruct (negb blocking); [discriminate|].
    destruct (Qeq_bool (rate (refill now b)) 0); discriminate.
Qed.

Lemma acquire_py_tokens_nonneg (sched : list (Q * (bucket -> bucket))) :
  forall t0 n blocking b b',
    acquire_py t0 sched n blocking b = (Some (POk true), b') -> 0 <= tokens b'.
Proof.
  induction sched as [|[t1 during] rest IH]; intros t0 n blocking b b' H;
    cbn [acquire_py] in H;
    destruct (acquire_enter t0 n blocking b) as [b1|b1|w b1|e b1] eqn:E;
    try discriminate H.
  1, 3: injection H as <-; exact (acquire_enter_granted_nonneg _ _ _ _ _ E).
  all: destruct (sleep w); discriminate H || (eapply IH; exact H).
Qed.

Lemma acquire_py_tokens_nonneg_witness :
  (acquire_py 0 [(1 # 2, set_rate 0 (1 # 2)); (3, fun b => b)] 1 true (mkBucket 2 5 0 0)).1
    = Some (POk true)
  /\ 0 <= tokens (acquire_py 0 [(1 # 2, set_rate 0 (1 # 2)); (3, fun b => b)] 1 true
                    (mkBucket 2 5 0 0)).2.
Proof.
  split; [vm_compute; reflexivity|].
  apply (acquire_py_tokens_nonneg [(1 # 2, set_rate 0 (1 # 2)); (3, fun b => b)] 0 1 true
           (mkBucket 2 5 0 0)).
  vm_compute. reflexivity.
Defined.

End TokenBucket.

(** ** The sink and the emitted-id ledgers *)

(** C4 (failing input): a user card whose [card] field is [null]. It lacks
    [card.mid], but [save_account] does not return [False]: the
    [.get("mid")] on [None] raises [AttributeError] (nothing is sent and
    nothing recorded). *)
Lemma save_account_null_card_raises :
  save_account (fun _ => "") (JObj [("card", JNull)]) []
  = (PExc "'NoneType' object has no attribute 'get'", []).
Proof. reflexivity. Qed.

Lemma ledger_ok_from_app (seen l1 l2 : list event) :
  ledger_ok_from seen (l1 ++ l2) <-> ledger_ok_from seen l1 /\ ledger_ok_from (seen ++ l1) l2.
Proof.
  revert seen. induction l1 as [|ev l1 IH]; intros seen; simpl.
  - rewrite app_nil_r. tauto.
  - destruct ev as [t k|f k]; rewrite IH, <- app_assoc; simpl; tauto.
Qed.

Lemma ledger_ok_send_record (log : list event) (t f k : string) :
  ledger_topic f = Some t -> ledger_ok log ->
  ledger_ok (log ++ [ESend t k] ++ [ERecord f k]).
Proof.
  intros Hf Hlog. unfold ledger_ok. rewrite app_assoc, ledger_ok_from_app.
  split; [apply ledger_ok_from_app; split; [exact Hlog|simpl; exact I]|].
  simpl. split; [|exact I]. intros t' Ht'. rewrite Hf in Ht'. injection Ht' as <-.
  apply in_or_app. right. left. reflexivity.
Qed.

Section Ledgers.
Variable repr_container : json -> string.

(** What the three sink functions do: a missing or falsy key returns
    [False] with no effect; a raised exception has no effect; a
    successful call sends with the key, then records the same id in the
    ledger of that topic. Hence the ledgers stay consistent. *)
Lemma save_video_effect (video : json) (log : list event) :
  let (r, log') := save_video repr_container video log in
  (r = POk false /\ log' = log)
  \/ (exists e, r = PExc e /\ log' = log)
  \/ (exists k, r = POk true /\ log' = log ++ [ESend "claw_video" k] ++ [ERecord "sent_videos.txt" k]).
Proof.
  unfold save_video, kafka_send.
  destruct (py_get video "bvid" JNull) as [bvid|e]; [|right; left; eauto].
  destruct (truthy bvid) eqn:Ht; simpl; [|left; auto].
  destruct bvid; simpl in Ht |- *; try discriminate;
    try (rewrite ?Ht; right; left; eauto; fail).
  right; right. eexists. split; [reflexivity|]. rewrite <- app_assoc. reflexivity.
Qed.

Lemma save_comment_effect (comment : json) (log : list event) :
  let (r, log') := save_comment repr_container comment log in
  (r = POk false /\ log' = log)
  \/ (exists e, r = PExc e /\ log' = log)
  \/ (exists k, r = POk true /\ log' = log ++ [ESend "claw_comment" k] ++ [ERecord "sent_comments.txt" k]).
Proof.
  unfold save_comment, kafka_send.
  destruct (py_get comment "rpid" JNull) as [rpid|e]; [|right; left; eauto].
  destruct (truthy rpid) eqn:Ht; simpl; [|left; auto].
  right; right. eexists. split; [reflexivity|]. rewrite <- app_assoc. reflexivity.
Qed.

Lemma save_account_effect (account : json) (log : list event) :
  let (r, log') := save_account repr_container account log in
  (r = POk false /\ log' = log)
  \/ (exists e, r = PExc e /\ log' = log)
  \/ (exists k, r = POk true /\ log' = log ++ [ESend "claw_account" k] ++ [ERecord "sent_accounts.txt" k]).
Proof.
  unfold save_account, kafka_send.
  destruct (let! card := py_get account "card" (JObj []) in py_get card "mid" JNull)
    as [mid|e]; [|right; left; eauto].
  destruct (truthy mid) eqn:Ht; simpl; [|left; auto].
  right; right. eexists. split; [reflexivity|]. rewrite <- app_assoc. reflexivity.
Qed.

(** The three sink functions keep the ledgers consistent (every id
    recorded follows a sink call with that key on the ledger's topic): a
    call leaves the log as it was, or appends a send with some key [k]
    followed by the record of [k] in the ledger of that send's topic. *)
Lemma save_preserves_ledger (log : list event) (kind : nat) (record : json) :
  ledger_ok log ->
  let log' := match kind with
              | 0 => (save_video repr_container record log).2
              | 1 => (save_comment repr_container record log).2
              | _ => (save_account repr_container record log).2
              end in
  ledger_ok log'
  /\ (log' = log
      \/ exists t f k, ledger_topic f = Some t /\ log' = log ++ [ESend t k; ERecord f k]).
Proof.
  intros Hlog log'. subst log'. destruct kind as [|[|]].
  - pose proof (save_video_effect record log) as H.
    destruct (save_video repr_container record log) as [r l'].
    destruct H as [[_ ->]|[[e [_ ->]]|[k [_ ->]]]]; cbn [snd]; try (split; [exact Hlog|left; reflexivity]).
    split; [apply ledger_ok_send_record; [reflexivity|exact Hlog]|].
    right. exists "claw_video", "sent_videos.txt", k. split; reflexivity.
  - pose proof (save_comment_effect record log) as H.
    destruct (save_comment repr_container record log) as [r l'].
    destruct H as [[_ ->]|[[e [_ ->]]|[k [_ ->]]]]; cbn [snd]; try (split; [exact Hlog|left; reflexivity]).
    split; [apply ledger_ok_send_record; [reflexivity|exact Hlog]|].
    right. exists "claw_comment", "sent_comments.txt", k. split; reflexivity.
  - pose proof (save_account_effect record log) as H.
    destruct (save_account repr_container record log) as [r l'].
    destruct H as [[_ ->]|[[e [_ ->]]|[k [_ ->]]]]; cbn [snd]; try (split; [exact Hlog|left; reflexivity]).
    split; [apply ledger_ok_send_record; [reflexivity|exact Hlog]|].
    right. exists "claw_account", "sent_accounts.txt", k. split; reflexivity.
Qed.

End Ledgers.

Lemma save_preserves_ledger_witness :
  ledger_ok []
  /\ (save_video (fun _ => "") (JObj [("bvid", JStr "BV1")]) []).2
     = [ESend "claw_video" "BV1"; ERecord "sent_videos.txt" "BV1"]
  /\ ledger_ok (save_video (fun _ => "") (JObj [("bvid", JStr "BV1")]) []).2.
Proof.
  split; [exact I|]. split; [reflexivity|].
  exact (proj1 (save_preserves_ledger (fun _ => "") [] 0 (JObj [("bvid", JStr "BV1")]) I)).
Defined.

(** ** Retries and the error shapes *)

(** Each endpoint returns, whenever its error is not [None], exactly the
    tuple [_get_error_return] builds for its name from that error. *)
Lemma endpoint_error_shape (name : string) (resp : response) :
  In name endpoint_names ->
  ret_err (endpoint_body name resp) = JNull
  \/ endpoint_body name resp = get_error_return name (ret_err (endpoint_body name resp)).
Proof.
  intros Hin. simpl in Hin.
  destruct Hin as [<-|[<-|[<-|[<-|[<-|[<-|[]]]]]]];
    unfold endpoint_body, get_error_return; simpl;
    unfold search_videos_body, get_video_aid_body, get_video_detail_body,
      get_user_card_body, get_data_body, get_main_comments_body,
      get_reply_comments_body, run_body, message_of;
    destruct resp as [data|e]; simpl; auto;
    destruct data; simpl; auto;
    unfold pbind; repeat (case_match; simplify_eq/=; auto).
Qed.

Lemma retry_loop_failed_step (name : string) (outs : nat -> attempt_out)
    (attempt fuel : nat) (last : json) :
  failed_attempt name (outs attempt) -> attempt < 3 ->
  retry_loop name 3 outs attempt (S fuel) last
  = retry_loop name 3 outs (S attempt) fuel (attempt_error (outs attempt)).
Proof.
  intros Hf Hlt. simpl. apply Nat.ltb_lt in Hlt.
  destruct (outs attempt) as [r|e]; simpl in *.
  - destruct Hf as [_ Hne]. destruct (ret_err r); [congruence| ..]; rewrite Hlt; reflexivity.
  - rewrite Hlt. reflexivity.
Qed.

Lemma retry_loop_failed_last (name : string) (outs : nat -> attempt_out)
    (fuel : nat) (last : json) :
  In name endpoint_names -> failed_attempt name (outs 3) ->
  retry_loop name 3 outs 3 (S fuel) last = get_error_return name (attempt_error (outs 3)).
Proof.
  intros Hin Hf. simpl.
  destruct (outs 3) as [r|e]; simpl in *; [|reflexivity].
  destruct Hf as [[resp ->] Hne].
  destruct (endpoint_error_shape name resp Hin) as [Hnull|Hshape]; [congruence|].
  destruct (ret_err (endpoint_body name resp)) eqn:E; [congruence| ..];
    exact Hshape.
Qed.

(** C7 (failing input): every attempt of [search_videos] gets
    [{"code": -352, "message": null}]. The endpoint's error is
    [data.get('message', 'Unknown error')] = [None] (the default applies
    only to a missing key), so the wrapper takes the first failed attempt
    for a success: it returns [([], 0, None)] at once, with no error and no
    retry; later attempts that would succeed are never made. *)
Lemma search_videos_null_message_success :
  wrapped "search_videos"
    (fun _ => RespJson (JObj [("code", JInt (-352)); ("message", JNull)]))
  = RTriple (JList []) (JInt 0) JNull
  /\ wrapped "search_videos"
      (fun i => match i with
                | 0 => RespJson (JObj [("code", JInt (-352)); ("message", JNull)])
                | _ => RespJson (JObj [("code", JInt 0);
                         ("data", JObj [("result", JList [JObj [("bvid", JStr "BV1xx")]]);
                                        ("numPages", JInt 1)])])
                end)
    = RTriple (JList []) (JInt 0) JNull.
Proof. split; reflexivity. Qed.

(** [search_videos] whose four attempts all get
    [{"code": -352, "message": ""}] returns [([], 0, "")]: the error string
    is empty. *)
Lemma search_videos_exhausted_empty_error :
  wrapped "search_videos"
    (fun _ => RespJson (JObj [("code", JInt (-352)); ("message", JStr "")]))
  = RTriple (JList []) (JInt 0) (JStr "").
Proof. reflexivity. Qed.

(** When all [max_retries + 1 = 4] attempts of a
    decorated endpoint fail, by a transport exception or by a result whose
    error is not [None], the wrapper returns the endpoint's zero-value
    shape ([([], 0, err)], [(None, err)] or [([], "", True, err)]) whose
    last element is the final attempt's error: never [None], but the
    server's [message] as received (possibly empty) or the exception
    text. *)
Theorem retry_exhausted_zero_shape (name : string) (outs : nat -> attempt_out)
    (Hname : In name endpoint_names)
    (Hfail : forall i, i <= 3 -> failed_attempt name (outs i)) :
  retry_with_backoff 3 name outs = get_error_return name (attempt_error (outs 3))
  /\ attempt_error (outs 3) <> JNull.
Proof.
  split.
  - unfold retry_with_backoff.
    rewrite retry_loop_failed_step by (auto with lia).
    rewrite retry_loop_failed_step by (auto with lia).
    rewrite retry_loop_failed_step by (auto with lia).
    apply retry_loop_failed_last; auto.
  - specialize (Hfail 3 (le_n 3)). destruct (outs 3); simpl in *; [tauto|discriminate].
Qed.

Lemma retry_exhausted_zero_shape_witness :
  In "get_main_comments" endpoint_names
  /\ (forall i, i <= 3 ->
        failed_attempt "get_main_comments"
          (AReturn (endpoint_body "get_main_comments" (RespRaise "Read timed out."))))
  /\ retry_with_backoff 3 "get_main_comments"
       (fun _ => AReturn (endpoint_body "get_main_comments" (RespRaise "Read timed out.")))
     = RQuad (JList []) (JStr "") (JBool true) (JStr "Read timed out.").
Proof.
  assert (Hf : forall i, i <= 3 ->
      failed_attempt "get_main_comments"
        (AReturn (endpoint_body "get_main_comments" (RespRaise "Read timed out.")))).
  { intros i _. split; [eexists; reflexivity|discriminate]. }
  split; [simpl; tauto|]. split; [exact Hf|].
  exact (proj1 (retry_exhausted_zero_shape "get_main_comments"
    (fun _ => AReturn (endpoint_body "get_main_comments" (RespRaise "Read timed out.")))
    ltac:(simpl; tauto) Hf)).
Defined.

(** C8: for a response with [code == 0], a successful [get_main_comments]
    result (error [None]) carries as [next_cursor]
    the server's [data.cursor.pagination_reply.next_offset] (default
    [""]); its [is_end] is [True] when that offset is empty (falsy) or
    absent, and the server's [data.cursor.is_end] otherwise (default
    [True] when that field is absent). *)
Theorem get_main_comments_cursor_fields (data replies next_cursor is_end : json)
    (Hcode : py_ne_zero (default (JInt 0) (path_lookup data ["code"])) = false)
    (Hok : get_main_comments_body (RespJson data) = RQuad replies next_cursor is_end JNull) :
  next_cursor = default (JStr "") (path_lookup data ["data"; "cursor"; "pagination_reply"; "next_offset"])
  /\ is_end = (if truthy next_cursor
               then default (JBool true) (path_lookup data ["data"; "cursor"; "is_end"])
               else JBool true).
Proof.
  unfold get_main_comments_body, run_body, message_of, pbind in Hok.
  destruct data; simpl in Hok, Hcode; try discriminate.
  unfold py_get in *.
  repeat (case_match; simplify_eq/=; try discriminate; try congruence); auto.
Qed.

Lemma get_main_comments_cursor_fields_witness :
  let data := JObj [("code", JInt 0);
                    ("data", JObj [("replies", JList [JObj [("rpid", JInt 1)]]);
                                   ("cursor", JObj [("is_end", JBool false);
                                                    ("pagination_reply",
                                                      JObj [("next_offset", JStr "AA")])])])] in
  py_ne_zero (default (JInt 0) (path_lookup data ["code"])) = false
  /\ get_main_comments_body (RespJson data)
    = RQuad (JList [JObj [("rpid", JInt 1)]]) (JStr "AA") (JBool false) JNull
  /\ JStr "AA" = default (JStr "") (path_lookup data ["data"; "cursor"; "pagination_reply"; "next_offset"]).
Proof.
  intros data. split; [reflexivity|]. split; [reflexivity|].
  exact (proj1 (get_main_comments_cursor_fields data _ _ _ eq_refl eq_refl)).
Defined.

(** ** Cookie pool *)

Section Pool.
Import CookiePool.

Lemma run_op_cookies (p : pool) (op : pool_op) :
  cookies (run_op p op).2
  = match op with OpMark v perm => mark_first v perm (cookies p) | _ => cookies p end.
Proof.
  destruct op as [rnd|rnd|v perm]; simpl; [| | reflexivity];
  unfold get_cookie, get_cookie_item, select; repeat case_match; simplify_eq/=; auto.
Qed.

Lemma mark_first_values (v : string) (perm : bool) (cs : list cookie_item) :
  value <$> mark_first v perm cs = value <$> cs.
Proof.
  induction cs as [|c cs IH]; simpl; auto.
  destruct (String.eqb (value c) v); simpl.
  - destruct perm; simpl; auto. unfold mark_failed. case_match; reflexivity.
  - f_equal. exact IH.
Qed.

Lemma mark_first_lookup (v : string) (perm : bool) (cs : list cookie_item) (i : nat) (c : cookie_item) :
  NoDup (value <$> cs) -> cs !! i = Some c ->
  mark_first v perm cs !! i
  = Some (if String.eqb (value c) v
          then (if perm then mkItem (value c) (name c) false false (fail_count c) (max_fails c)
                else (mark_failed c).1)
          else c).
Proof.
  revert i. induction cs as [|d cs IH]; intros i Hnd Hi; [discriminate|].
  simpl in Hnd. apply NoDup_cons in Hnd as [Hnotin Hnd].
  destruct i as [|i]; simpl in Hi |- *.
  - injection Hi as <-. destruct (String.eqb (value d) v); reflexivity.
  - destruct (String.eqb (value d) v) eqn:Hd.
    + apply String.eqb_eq in Hd. subst v.
      assert (Hne : String.eqb (value c) (value d) = false).
      { apply String.eqb_neq. intros Heq. apply Hnotin. rewrite <- Heq.
        apply list_elem_of_fmap_2. eapply list_elem_of_lookup_2. exact Hi. }
      rewrite Hne. exact Hi.
    + apply IH; assumption.
Qed.

Lemma run_op_values (p : pool) (op : pool_op) :
  value <$> cookies (run_op p op).2 = value <$> cookies p.
Proof. rewrite run_op_cookies. destruct op; auto using mark_first_values. Qed.

(** The state of one credential along a run, when values are distinct:
    its [fail_count] grows by the number of failure marks on its value,
    and it is invalid once it was, or once a failure mark took its count
    to [max_fails]. *)
Lemma run_ops_item (ops : list pool_op) (p : pool) (i : nat) (c0 : cookie_item) :
  NoDup (value <$> cookies p) -> cookies p !! i = Some c0 ->
  exists c1, cookies (run_ops p ops).2 !! i = Some c1
    /\ value c1 = value c0 /\ max_fails c1 = max_fails c0
    /\ fail_count c1 = fail_count c0 + count_marks (value c0) ops
    /\ (is_valid c0 = false \/ (0 < count_marks (value c0) ops /\ max_fails c0 <= fail_count c1)
        -> is_valid c1 = false).
Proof.
  revert p c0. induction ops as [|op ops IH]; intros p c0 Hnd Hi.
  - exists c0. simpl. split; [exact Hi|]. split; [reflexivity|]. split; [reflexivity|].
    split; [lia|]. intros [H|[H _]]; [exact H|lia].
  - simpl. destruct (run_op p op) as [o p1] eqn:Hop.
    destruct (run_ops p1 ops) as [os p2] eqn:Hrest. simpl.
    assert (Hc1 : cookies p1 = cookies (run_op p op).2) by (rewrite Hop; reflexivity).
    assert (Hnd1 : NoDup (value <$> cookies p1)) by (rewrite Hc1, run_op_values; exact Hnd).
    rewrite run_op_cookies in Hc1.
    destruct op as [rnd|rnd|v perm].
    + rewrite <- Hc1 in Hi. destruct (IH p1 c0 Hnd1 Hi) as (c1 & H1 & Hv & Hm & Hf & Hvalid).
      rewrite Hrest in H1. exists c1. simpl. auto.
    + rewrite <- Hc1 in Hi. destruct (IH p1 c0 Hnd1 Hi) as (c1 & H1 & Hv & Hm & Hf & Hvalid).
      rewrite Hrest in H1. exists c1. simpl. auto.
    + pose proof (mark_first_lookup v perm _ i c0 Hnd Hi) as Hl. rewrite <- Hc1 in Hl.
      destruct (String.eqb (value c0) v) eqn:Hcv.
      * apply String.eqb_eq in Hcv. subst v. rewrite String.eqb_refl.
        destruct perm.
        -- destruct (IH p1 _ Hnd1 Hl) as (c1 & H1 & Hv & Hm & Hf & Hvalid).
           rewrite Hrest in H1. simpl in *. exists c1.
           split; [exact H1|]. split; [exact Hv|]. split; [exact Hm|]. split; [lia|].
           intros _. apply Hvalid. left. reflexivity.
        -- destruct (IH p1 _ Hnd1 Hl) as (c1 & H1 & Hv & Hm & Hf & Hvalid).
           rewrite Hrest in H1. unfold mark_failed in *.
           destruct (Nat.leb (max_fails c0) (S (fail_count c0))) eqn:Hle; simpl in *;
             exists c1; split; [exact H1| |exact H1|];
             (split; [exact Hv|]); (split; [exact Hm|]); (split; [lia|]).
           ++ intros _. apply Hvalid. left. reflexivity.
           ++ intros [H|[_ H]].
              ** apply Hvalid. left. exact H.
              ** apply Hvalid. right. split; [|lia].
                 apply Nat.leb_gt in Hle.
                 destruct (count_marks (value c0) ops); lia.
      * assert (Hvc : String.eqb v (value c0) = false).
        { apply String.eqb_neq. intros ->. rewrite String.eqb_refl in Hcv. discriminate. }
        destruct (IH p1 c0 Hnd1 Hl) as (c1 & H1 & Hv & Hm & Hf & Hvalid).
        rewrite Hrest in H1. exists c1. destruct perm; simpl; rewrite ?Hvc; simpl; auto.
Qed.

Lemma avail_from_sound (k j : nat) (d : cookie_item) (cs : list cookie_item) :
  (j, d) ∈ avail_from k cs -> k <= j /\ cs !! (j - k) = Some d /\ is_valid d = true.
Proof.
  revert k. induction cs as [|c cs IH]; intros k Hin; simpl in Hin.
  - apply elem_of_nil in Hin. contradiction.
  - destruct (enabled c && is_valid c) eqn:Hc.
    + apply elem_of_cons in Hin as [Heq|Hin].
      * injection Heq as -> ->. rewrite Nat.sub_diag. apply andb_true_iff in Hc.
        destruct Hc as [_ Hc]. split; [lia|]. split; [reflexivity|exact Hc].
      * destruct (IH (S k) Hin) as (Hk & Hl & Hv).
        replace (j - k) with (S (j - S k)) by lia. auto with lia.
    + destruct (IH (S k) Hin) as (Hk & Hl & Hv).
      replace (j - k) with (S (j - S k)) by lia. auto with lia.
Qed.

Lemma select_sound (p : pool) (rnd j : nat) (d : cookie_item) (p' : pool) :
  select p rnd = Some ((j, d), p') -> cookies p !! j = Some d /\ is_valid d = true.
Proof.
  unfold select. intros Hs.
  assert (Hin : (j, d) ∈ available p).
  { destruct (available p) as [|x av] eqn:Ha; [discriminate|].
    case_match; case_match eqn:Hl; simplify_eq; eapply list_elem_of_lookup_2; exact Hl. }
  unfold available in Hin. apply avail_from_sound in Hin as (_ & Hl & Hv).
  rewrite Nat.sub_0_r in Hl. auto.
Qed.

(** An invalid credential with a value no other credential has is never
    handed out again. *)
Lemma invalid_never_handed_out (ops : list pool_op) (p : pool) (i : nat) (c : cookie_item) :
  NoDup (value <$> cookies p) -> cookies p !! i = Some c -> is_valid c = false ->
  forall o, o ∈ (run_ops p ops).1 -> out_sel o <> Some i /\ ~ hands_out_value (value c) o.
Proof.
  revert p c. induction ops as [|op ops IH]; intros p c Hnd Hi Hinv o Ho.
  - simpl in Ho. apply elem_of_nil in Ho. contradiction.
  - simpl in Ho. destruct (run_op p op) as [o1 p1] eqn:Hop.
    destruct (run_ops p1 ops) as [os p2] eqn:Hrest. simpl in Ho.
    assert (Hsel : forall rnd j d p', select p rnd = Some ((j, d), p') -> j <> i /\ value d <> value c).
    { intros rnd j d p' Hs. apply select_sound in Hs as [Hj Hv].
      assert (j <> i) by (intros ->; congruence). split; [auto|].
      intros Heq. apply H. eapply NoDup_lookup; [exact Hnd| |].
      - rewrite list_lookup_fmap, Hj. simpl. rewrite Heq. reflexivity.
      - rewrite list_lookup_fmap, Hi. reflexivity. }
    apply elem_of_cons in Ho as [->|Ho].
    + destruct op as [rnd|rnd|v perm]; simpl in Hop.
      * unfold get_cookie in Hop. destruct (select p rnd) as [[[j d] p']|] eqn:Hs;
          simplify_eq/=; [|split; [congruence|tauto]].
        destruct (Hsel _ _ _ _ Hs). split; congruence.
      * unfold get_cookie_item in Hop. destruct (select p rnd) as [[[j d] p']|] eqn:Hs;
          simplify_eq/=; [|split; [congruence|tauto]].
        destruct (Hsel _ _ _ _ Hs). split; congruence.
      * simplify_eq/=. split; [congruence|tauto].
    + destruct (run_ops_item [op] p i c Hnd Hi) as (c1 & H1 & Hv & _ & _ & Hvalid).
      simpl in H1. rewrite Hop in H1. simpl in H1.
      assert (Hnd1 : NoDup (value <$> cookies p1)).
      { pose proof (run_op_values p op) as E. rewrite Hop in E. simpl in E. rewrite E. exact Hnd. }
      rewrite <- Hv. apply (IH p1 c1 Hnd1 H1); [apply Hvalid; left; exact Hinv|].
      rewrite Hrest. exact Ho.
Qed.

Lemma run_ops_values (ops : list pool_op) (p : pool) :
  value <$> cookies (run_ops p ops).2 = value <$> cookies p.
Proof.
  revert p. induction ops as [|op ops IH]; intros p; simpl; [reflexivity|].
  destruct (run_op p op) as [o p1] eqn:Hop.
  destruct (run_ops p1 ops) as [os p2] eqn:Hrest. simpl.
  pose proof (IH p1) as E. rewrite Hrest in E. simpl in E. rewrite E.
  pose proof (run_op_values p op) as E1. rewrite Hop in E1. exact E1.
Qed.

Lemma mark_first_unknown (v : string) (perm : bool) (cs : list cookie_item) :
  v ∉ value <$> cs -> mark_first v perm cs = cs.
Proof.
  induction cs as [|c cs IH]; intros Hv; simpl; [reflexivity|].
  simpl in Hv. apply not_elem_of_cons in Hv as [Hne Hv].
  destruct (String.eqb (value c) v) eqn:Hc.
  - apply String.eqb_eq in Hc. congruence.
  - f_equal. apply IH. exact Hv.
Qed.

End Pool.

Section PoolClaims.
Import CookiePool.

(** C5 (counterexample): [mark_invalid] only marks the first credential
    with the given value, so after three failure marks on ["v"] the second
    credential with value ["v"] still has [fail_count = 0], is still valid,
    and is the next one [get_cookie_item] returns. *)
Lemma mark_invalid_duplicate_value_spares_second :
  let p1 := (run_ops dup_pool [OpMark "v" false; OpMark "v" false; OpMark "v" false]).2 in
  cookies p1 !! 1 = Some (mkItem "v" "b" true true 0 3)
  /\ (run_ops p1 [OpGetItem 0]).1 = [OutItem (Some (1, mkItem "v" "b" true true 0 3))].
Proof. vm_compute. split; reflexivity. Qed.

(** C5 (amended): in a pool whose credentials have pairwise distinct
    values, a credential with [max_fails > 0] that has received at least
    [max_fails] failure marks ([mark_invalid(value, permanent=False)]) in
    a run of pool operations (no [reset] exists among them) has
    [fail_count >= max_fails] and [is_valid = False], and no later
    [get_cookie] / [get_cookie_item] hands it (or its value) out; and a
    failure mark whose value matches no credential leaves the pool
    unchanged. *)
Theorem mark_failures_disable_credential (p : pool) (ops1 ops2 : list pool_op)
    (i : nat) (c : cookie_item)
    (Hnd : NoDup (value <$> cookies p)) (Hi : cookies p !! i = Some c)
    (Hpos : 0 < max_fails c) (Hmarks : max_fails c <= count_marks (value c) ops1) :
  (exists c1, cookies (run_ops p ops1).2 !! i = Some c1
     /\ value c1 = value c /\ max_fails c <= fail_count c1 /\ is_valid c1 = false
     /\ forall o, o ∈ (run_ops (run_ops p ops1).2 ops2).1 ->
          out_sel o <> Some i /\ ~ hands_out_value (value c) o)
  /\ (forall (q : pool) (v : string), v ∉ value <$> cookies q -> mark_invalid q v false = q).
Proof.
  split.
  - destruct (run_ops_item ops1 p i c Hnd Hi) as (c1 & H1 & Hv & Hm & Hf & Hvalid).
    assert (Hinv : is_valid c1 = false) by (apply Hvalid; right; split; lia).
    exists c1. split; [exact H1|]. split; [exact Hv|]. split; [lia|]. split; [exact Hinv|].
    intros o Ho. rewrite <- Hv.
    apply (invalid_never_handed_out ops2 (run_ops p ops1).2 i c1); auto.
    rewrite run_ops_values. exact Hnd.
  - intros [cs idx strat] v Hv. unfold mark_invalid. simpl in *.
    rewrite mark_first_unknown by exact Hv. reflexivity.
Qed.

Lemma mark_failures_disable_credential_witness :
  let p := mkPool [mkItem "a" "A" true true 0 3; mkItem "b" "B" true true 0 3] 0 "round_robin" in
  let ops1 := [OpMark "a" false; OpGetCookie 0; OpMark "a" false; OpMark "a" false] in
  let ops2 := [OpGetCookie 0; OpGetItem 0; OpGetCookie 0] in
  NoDup (value <$> cookies p) /\ 0 < 3 /\ 3 <= count_marks "a" ops1
  /\ (exists c1, cookies (run_ops p ops1).2 !! 0 = Some c1
       /\ value c1 = "a" /\ 3 <= fail_count c1 /\ is_valid c1 = false
       /\ forall o, o ∈ (run_ops (run_ops p ops1).2 ops2).1 ->
            out_sel o <> Some 0 /\ ~ hands_out_value "a" o).
Proof.
  intros p ops1 ops2.
  assert (Hnd : NoDup (value <$> cookies p)) by (apply (bool_decide_unpack _); reflexivity).
  split; [exact Hnd|]. split; [lia|]. split; [vm_compute; lia|].
  exact (proj1 (mark_failures_disable_credential p ops1 ops2 0 (mkItem "a" "A" true true 0 3)
                  Hnd eq_refl ltac:(simpl; lia) ltac:(vm_compute; lia))).
Defined.

End PoolClaims.

(** ** Round-robin counting *)

Section Hits.
Variables k r : nat.
Hypothesis Hk : 0 < k.
Hypothesis Hr : r < k.

Lemma hits_app (s a b : nat) : hits k r s (a + b) = hits k r s a + hits k r (s + a) b.
Proof.
  revert s. induction a as [|a IH]; intros s; simpl.
  - rewrite Nat.add_0_r. reflexivity.
  - rewrite IH. replace (S s + a) with (s + S a) by lia. lia.
Qed.

Lemma hits_mod (s s' m : nat) : s mod k = s' mod k -> hits k r s m = hits k r s' m.
Proof.
  revert s s'. induction m as [|m IH]; intros s s' Hs; simpl; [reflexivity|].
  rewrite Hs. f_equal. apply IH.
  replace (S s) with (s + 1) by lia. replace (S s') with (s' + 1) by lia.
  rewrite (Nat.Div0.add_mod s 1 k), (Nat.Div0.add_mod s' 1 k). rewrite Hs. reflexivity.
Qed.

Lemma hits_prefix (a m : nat) : a + m <= k ->
  hits k r a m = if (a <=? r) && (r <? a + m) then 1 else 0.
Proof.
  revert a. induction m as [|m IH]; intros a Ham; simpl.
  - destruct (a <=? r) eqn:E1; destruct (r <? a + 0) eqn:E2; simpl; auto.
    apply Nat.leb_le in E1. apply Nat.ltb_lt in E2. lia.
  - rewrite Nat.mod_small by lia. rewrite IH by lia.
    destruct (Nat.eqb_spec a r);
      destruct (Nat.leb_spec a r); destruct (Nat.ltb_spec r (a + S m));
      destruct (Nat.leb_spec (S a) r); destruct (Nat.ltb_spec r (S a + m)); simpl; lia.
Qed.

(** Any [k] consecutive steps hit residue [r] exactly once. *)
Lemma hits_window (s : nat) : hits k r s k = 1.
Proof.
  rewrite (hits_mod s (s mod k)) by (rewrite Nat.Div0.mod_mod; lia).
  assert (Hsk : s mod k < k) by (apply Nat.mod_upper_bound; lia).
  remember (s mod k) as a eqn:Ea. clear Ea s.
  (* steps a .. k-1, then 0 .. a-1 *)
  replace k with ((k - a) + a) at 2 by lia.
  rewrite hits_app. replace (a + (k - a)) with (0 + k) by lia.
  rewrite (hits_mod (0 + k) 0) by (rewrite Nat.add_0_l, Nat.Div0.mod_same, Nat.Div0.mod_0_l; lia).
  rewrite !hits_prefix by lia.
  destruct (Nat.leb_spec a r); destruct (Nat.ltb_spec r (a + (k - a)));
    destruct (Nat.leb_spec 0 r); destruct (Nat.ltb_spec r (0 + a)); simpl; lia.
Qed.

Lemma hits_blocks (s q m : nat) : hits k r s (q * k + m) = q + hits k r (s + q * k) m.
Proof.
  revert s. induction q as [|q IH]; intros s; simpl.
  - rewrite Nat.add_0_r. reflexivity.
  - rewrite <- Nat.add_assoc, hits_app, hits_window, IH.
    replace (s + k + q * k) with (s + (k + q * k)) by lia. lia.
Qed.

Lemma hits_short (s m : nat) : m < k -> hits k r s m <= 1.
Proof.
  intros Hm. pose proof (hits_window s) as W.
  replace k with (m + (k - m)) in W at 2 by lia. rewrite hits_app in W. lia.
Qed.

(** Over [m] consecutive steps, residue [r] is hit [floor(m/k)] or
    [ceil(m/k)] times. *)
Lemma hits_floor_ceil (s m : nat) :
  hits k r s m = m / k \/ hits k r s m = (m + k - 1) / k.
Proof.
  pose proof (Nat.div_mod m k ltac:(lia)) as Em.
  pose proof (Nat.mod_upper_bound m k ltac:(lia)) as Hb.
  set (q := m / k) in *. set (t := m mod k) in *.
  assert (Hh : hits k r s m = q + hits k r (s + q * k) t).
  { rewrite <- hits_blocks. f_equal. lia. }
  destruct t as [|t'] eqn:Et.
  - left. rewrite Hh. simpl. lia.
  - pose proof (hits_short (s + q * k) (S t') Hb) as H1.
    assert (Hc : (m + k - 1) / k = S q).
    { symmetry. apply (Nat.div_unique _ _ _ t'); lia. }
    rewrite Hc. lia.
Qed.

End Hits.

Section RoundRobin.
Import CookiePool.

Lemma avail_from_ge (k j : nat) (d : cookie_item) (cs : list cookie_item) :
  (j, d) ∈ avail_from k cs -> k <= j.
Proof. intros H. apply avail_from_sound in H. lia. Qed.

Lemma avail_from_positions_nodup (k : nat) (cs : list cookie_item) :
  NoDup (fst <$> avail_from k cs).
Proof.
  revert k. induction cs as [|c cs IH]; intros k; simpl; [constructor|].
  destruct (enabled c && is_valid c); [|apply IH].
  simpl. constructor; [|apply IH].
  intros Hin. apply list_elem_of_fmap_1 in Hin as [[j d] [Hj Hin]]. simpl in Hj. subst j.
  apply (avail_from_ge (S k) _ d cs) in Hin. lia.
Qed.

Lemma select_rr (p : pool) (rnd : nat) (P : list nat) :
  String.eqb (strategy p) "random" = false -> fst <$> available p = P -> P <> [] ->
  exists y d, P !! (index p mod length P) = Some y
    /\ select p rnd = Some ((y, d), mkPool (cookies p) (S (index p mod length P)) (strategy p)).
Proof.
  intros Hrr HP Hne. unfold select.
  destruct (available p) as [|a av] eqn:Ha; [subst P; simpl in Hne; contradiction|].
  rewrite Hrr. rewrite <- HP, length_fmap.
  assert (Hlt : index p mod length (a :: av) < length (a :: av))
    by (apply Nat.mod_upper_bound; simpl; lia).
  apply lookup_lt_is_Some_2 in Hlt as [[y d] Hl].
  exists y, d. split.
  - rewrite list_lookup_fmap, Hl. reflexivity.
  - rewrite Hl. reflexivity.
Qed.

(** Under round robin, with the available positions fixed at [P], the
    credential at [P !! x] is selected as often as the selections land on
    residue [x]. *)
Lemma round_robin_run (ops : list pool_op) (p : pool) (P : list nat) (x j : nat) :
  String.eqb (strategy p) "random" = false -> P <> [] -> P !! x = Some j ->
  avail_fixed P p ops ->
  times_selected j (run_ops p ops).1 = hits (length P) x (index p) (selections (run_ops p ops).1).
Proof.
  revert p. induction ops as [|op ops IH]; intros p Hrr Hne Hx Hfix; [reflexivity|].
  destruct Hfix as [HP Hfix].
  assert (HNd : NoDup P) by (rewrite <- HP; apply avail_from_positions_nodup).
  assert (Hk : 0 < length P) by (destruct P; simpl; [contradiction|lia]).
  simpl. destruct (run_op p op) as [o p1] eqn:Hop.
  destruct (run_ops p1 ops) as [os p2] eqn:Hrest. simpl. simpl in Hfix. try rewrite Hop in Hfix.
  destruct op as [rnd|rnd|v perm].
  - destruct (select_rr p rnd P Hrr HP Hne) as (y & d & Hy & Hs).
    simpl in Hop. unfold get_cookie in Hop. rewrite Hs in Hop. simpl in Hop. injection Hop as <- <-.
    pose proof (IH (mkPool (cookies p) (S (index p mod length P)) (strategy p)) Hrr Hne Hx Hfix) as E.
    rewrite Hrest in E. simpl in E. rewrite E.
    assert (Hyj : Nat.eqb y j = Nat.eqb (index p mod length P) x).
    { destruct (Nat.eqb_spec y j) as [->|Hyj]; destruct (Nat.eqb_spec (index p mod length P) x)
        as [Hix|Hix]; auto.
      - exfalso. apply Hix. eapply NoDup_lookup; eauto.
      - exfalso. apply Hyj. rewrite Hix in Hy. congruence. }
    simpl. rewrite Hyj. f_equal.
    assert (x < length P) by (eapply lookup_lt_Some; exact Hx).
    apply hits_mod; try lia.
    replace (S (index p mod length P)) with (index p mod length P + 1) by lia.
    replace (S (index p)) with (index p + 1) by lia.
    rewrite (Nat.Div0.add_mod (index p mod length P)), (Nat.Div0.add_mod (index p)), Nat.Div0.mod_mod.
    reflexivity.
  - destruct (select_rr p rnd P Hrr HP Hne) as (y & d & Hy & Hs).
    simpl in Hop. unfold get_cookie_item in Hop. rewrite Hs in Hop. simpl in Hop. injection Hop as <- <-.
    pose proof (IH (mkPool (cookies p) (S (index p mod length P)) (strategy p)) Hrr Hne Hx Hfix) as E.
    rewrite Hrest in E. simpl in E. rewrite E.
    assert (Hyj : Nat.eqb y j = Nat.eqb (index p mod length P) x).
    { destruct (Nat.eqb_spec y j) as [->|Hyj]; destruct (Nat.eqb_spec (index p mod length P) x)
        as [Hix|Hix]; auto.
      - exfalso. apply Hix. eapply NoDup_lookup; eauto.
      - exfalso. apply Hyj. rewrite Hix in Hy. congruence. }
    simpl. rewrite Hyj. f_equal.
    assert (x < length P) by (eapply lookup_lt_Some; exact Hx).
    apply hits_mod; try lia.
    replace (S (index p mod length P)) with (index p mod length P + 1) by lia.
    replace (S (index p)) with (index p + 1) by lia.
    rewrite (Nat.Div0.add_mod (index p mod length P)), (Nat.Div0.add_mod (index p)), Nat.Div0.mod_mod.
    reflexivity.
  - simpl in Hop. injection Hop as <- <-.
    pose proof (IH (mark_invalid p v perm) Hrr Hne Hx Hfix) as E. rewrite Hrest in E. exact E.
Qed.

End RoundRobin.

Section RoundRobinClaims.
Import CookiePool.

(** C6: under the round-robin strategy (any strategy other than
    ["random"]), in a run of pool operations during which the positions of
    the available (enabled and valid) credentials stay fixed at [P], with
    [k = length P] and [m] successful selections by [get_cookie] /
    [get_cookie_item], each available credential is handed out
    [floor(m/k)] or [ceil(m/k)] times. *)
Theorem round_robin_floor_ceil (p : pool) (ops : list pool_op) (P : list nat)
    (Hrr : strategy p <> "random") (Hfix : avail_fixed P p ops) (j : nat) (Hj : j ∈ P) :
  let outs := (run_ops p ops).1 in
  times_selected j outs = selections outs / length P
  \/ times_selected j outs = (selections outs + length P - 1) / length P.
Proof.
  intros outs.
  apply list_elem_of_lookup_1 in Hj as [x Hx].
  assert (Hne : P <> []) by (intros ->; discriminate).
  assert (Hk : 0 < length P) by (destruct P; simpl; [contradiction|lia]).
  assert (Hxk : x < length P) by (eapply lookup_lt_Some; exact Hx).
  assert (Hrrb : String.eqb (strategy p) "random" = false) by (apply String.eqb_neq; exact Hrr).
  unfold outs. rewrite (round_robin_run ops p P x j Hrrb Hne Hx Hfix).
  apply hits_floor_ceil; assumption.
Qed.

Lemma round_robin_floor_ceil_witness :
  let p := mkPool [mkItem "a" "A" true true 0 3; mkItem "b" "B" true true 0 3;
                   mkItem "c" "C" false true 0 3; mkItem "d" "D" true true 0 3] 5 "round_robin" in
  let ops := [OpGetCookie 0; OpGetItem 0; OpMark "b" false; OpGetCookie 0;
              OpGetCookie 0; OpGetItem 0; OpMark "zz" false; OpGetCookie 0; OpGetCookie 0] in
  strategy p <> "random" /\ avail_fixed [0; 1; 3] p ops /\ 3 ∈ [0; 1; 3]
  /\ (times_selected 3 (run_ops p ops).1 = selections (run_ops p ops).1 / 3
      \/ times_selected 3 (run_ops p ops).1 = (selections (run_ops p ops).1 + 3 - 1) / 3).
Proof.
  intros p ops.
  assert (Hrr : strategy p <> "random") by discriminate.
  assert (Hfix : avail_fixed [0; 1; 3] p ops) by (vm_compute; repeat split).
  assert (Hj : 3 ∈ [0; 1; 3]) by (apply (bool_decide_unpack _); reflexivity).
  split; [exact Hrr|]. split; [exact Hfix|]. split; [exact Hj|].
  exact (round_robin_floor_ceil p ops [0; 1; 3] Hrr Hfix 3 Hj).
Defined.

End RoundRobinClaims.

(** ** WBI signing *)

Section Wire.
Import Wbi.

Lemma append_cons (c : ascii) (s t : string) : (String c s ++ t)%string = String c (s ++ t).
Proof. reflexivity. Qed.

Lemma append_empty_l (t : string) : ("" ++ t)%string = t.
Proof. reflexivity. Qed.

Lemma append_empty_r (s : string) : (s ++ "")%string = s.
Proof. induction s as [|c s IH]; [reflexivity|]. rewrite append_cons, IH. reflexivity. Qed.

Lemma split_on_app_sep (sep : ascii) (x rest : string) :
  in_str sep x = false -> split_on sep (x ++ String sep rest)%string = x :: split_on sep rest.
Proof.
  induction x as [|c x IH]; intros Hx; rewrite ?append_empty_l, ?append_cons;
    cbn [split_on in_str] in *.
  - rewrite Ascii.eqb_refl. reflexivity.
  - apply orb_false_iff in Hx as [Hc Hx].
    rewrite Ascii.eqb_sym, Hc, IH by exact Hx. reflexivity.
Qed.

Lemma split_on_no_sep (sep : ascii) (x : string) :
  in_str sep x = false -> split_on sep x = [x].
Proof.
  induction x as [|c x IH]; intros Hx; cbn [split_on in_str] in *; [reflexivity|].
  apply orb_false_iff in Hx as [Hc Hx].
  rewrite Ascii.eqb_sym, Hc, IH by exact Hx. reflexivity.
Qed.

Lemma pct_decode_plain (s : string) : in_str "%"%char s = false -> pct_decode s = s.
Proof.
  induction s as [|c s IH]; intros Hs; cbn [pct_decode in_str] in *; [reflexivity|].
  apply orb_false_iff in Hs as [Hc Hs].
  rewrite Ascii.eqb_sym, Hc, IH by exact Hs. reflexivity.
Qed.

Lemma hex_val_hexdig (d : nat) : d < 16 -> hex_val (hexdig d) = Some d.
Proof. intros Hd. do 16 (destruct d as [|d]; [reflexivity|]). lia. Qed.

Lemma hexdig_not (c : ascii) (d : nat) :
  (c = "&"%char \/ c = "%"%char) -> Ascii.eqb c (hexdig d) = false.
Proof.
  intros [-> | ->]; do 16 (destruct d as [|d]; [reflexivity|]); reflexivity.
Qed.

(** [quote] is undone by percent-decoding when ['%'] is not safe. *)
Lemma pct_decode_quote (safe s : string) :
  in_str "%"%char safe = false -> pct_decode (quote safe s) = s.
Proof.
  intros Hsafe. induction s as [|c s IH]; [reflexivity|]. cbn [quote].
  destruct (always_safe c || in_str c safe) eqn:Hc.
  - assert (Hne : Ascii.eqb c "%"%char = false).
    { destruct (Ascii.eqb_spec c "%"%char) as [->|]; [|reflexivity].
      rewrite Hsafe in Hc. discriminate. }
    cbn [pct_decode]. rewrite Hne, IH. reflexivity.
  - cbn [pct_decode]. rewrite Ascii.eqb_refl. cbv beta iota.
    pose proof (nat_ascii_bounded c) as Hb.
    rewrite !hex_val_hexdig by (try apply Nat.mod_upper_bound; try apply Nat.Div0.div_lt_upper_bound; lia).
    cbv beta iota. rewrite IH. f_equal.
    rewrite (Nat.mul_comm _ 16), <- Nat.div_mod by lia. apply ascii_nat_embedding.
Qed.

Lemma quote_no_amp (safe s : string) :
  in_str "&"%char safe = false -> in_str "&"%char (quote safe s) = false.
Proof.
  intros Hsafe. induction s as [|c s IH]; [reflexivity|]. cbn [quote].
  destruct (always_safe c || in_str c safe) eqn:Hc; cbn [in_str].
  - assert (Hne : Ascii.eqb "&"%char c = false).
    { destruct (Ascii.eqb_spec "&"%char c) as [<-|]; [|reflexivity].
      rewrite Hsafe in Hc. discriminate. }
    rewrite Hne, IH. reflexivity.
  - rewrite !hexdig_not by auto. rewrite IH. reflexivity.
Qed.

Lemma pretty_N_go_no_char (c : ascii) (x : N) (s : string) :
  (forall d, Ascii.eqb c (pretty_N_char d) = false) ->
  in_str c s = false -> in_str c (pretty_N_go x s) = false.
Proof.
  intros Hd. revert s. induction x as [x IH] using (well_founded_induction N.lt_wf_0).
  intros s Hs. destruct (decide (0 < x)%N) as [Hx|Hx].
  - rewrite pretty_N_go_step by exact Hx. apply IH.
    + apply N.div_lt; lia.
    + simpl. rewrite Hd, Hs. reflexivity.
  - replace x with 0%N by lia. rewrite pretty_N_go_0. exact Hs.
Qed.

Lemma pretty_N_no_char (c : ascii) (n : N) :
  (forall d, Ascii.eqb c (pretty_N_char d) = false) -> in_str c (pretty n) = false.
Proof.
  intros Hd. unfold pretty, pretty_N. destruct (decide (n = 0%N)).
  - cbn [in_str]. rewrite orb_false_r. exact (Hd 0%N).
  - apply pretty_N_go_no_char; [exact Hd|reflexivity].
Qed.

Lemma pretty_N_char_not (c : ascii) (d : N) :
  (c = "&"%char \/ c = "%"%char) -> Ascii.eqb c (pretty_N_char d) = false.
Proof. intros [-> | ->]; unfold pretty_N_char; repeat case_match; reflexivity. Qed.

End Wire.

Section WireClaims.
Import Wbi.

(** C2 (counterexample): the value of [pagination_str] that is signed
    ([urllib.parse.quote(pagination_str)], which escapes [:]) is not the
    one sent in the URL ([quote(pagination_str, safe=':')]); for the
    first page the two differ at the colon. *)
Lemma sign_and_wire_encodings_differ :
  pagination_str_encoded "" = "%7B%22offset%22%3A%22%22%7D"
  /\ pagination_str_wire "" = "%7B%22offset%22:%22%22%7D"
  /\ pagination_str_encoded "" <> pagination_str_wire "".
Proof.
  split; [reflexivity|]. split; [reflexivity|]. vm_compute. discriminate.
Qed.

(** C2 (amended): the signed string and the request URL carry the same
    parameters: when [w_rid] has no [&], the URL's query fields, split at
    [&] and [=] and percent-decoded, are a permutation of [w_rid] together
    with the decoded fields of [sign_str] (the raw encodings of
    [pagination_str] differ, the decoded values are equal). *)
Theorem signed_params_match_url (oid wts : N) (cursor w_rid : string)
    (Hw : in_str "&"%char w_rid = false) :
  map decode_pair (parse_query (query_of_url (main_comments_url oid cursor wts w_rid)))
  ≡ₚ ("w_rid", pct_decode w_rid) :: map decode_pair (parse_query (sign_str oid cursor wts)).
Proof.
  pose proof (pretty_N_no_char "&"%char oid (fun d => pretty_N_char_not _ d (or_introl eq_refl))) as HO.
  pose proof (pretty_N_no_char "%"%char oid (fun d => pretty_N_char_not _ d (or_intror eq_refl))) as HO'.
  pose proof (pretty_N_no_char "&"%char wts (fun d => pretty_N_char_not _ d (or_introl eq_refl))) as HW.
  pose proof (pretty_N_no_char "%"%char wts (fun d => pretty_N_char_not _ d (or_intror eq_refl))) as HW'.
  pose proof (quote_no_amp "/" (pagination_str cursor) eq_refl) as HE.
  pose proof (quote_no_amp ":" (pagination_str cursor) eq_refl) as HV.
  pose proof (pct_decode_quote "/" (pagination_str cursor) eq_refl) as HE'.
  pose proof (pct_decode_quote ":" (pagination_str cursor) eq_refl) as HV'.
  apply pct_decode_plain in HO', HW'.
  unfold main_comments_url, sign_str, pagination_str_encoded, pagination_str_wire in *.
  generalize dependent (pretty oid). generalize dependent (pretty wts).
  generalize dependent (quote "/" (pagination_str cursor)).
  generalize dependent (quote ":" (pagination_str cursor)).
  intros V HV HV' E HE HE' W HW HW' O HO HO'.
  destruct (String.eqb cursor ""); cbn [negb]; unfold parse_query;
    rewrite ?append_cons, ?append_empty_l; simpl;
    repeat (rewrite split_on_app_sep by assumption; simpl);
    rewrite !split_on_no_sep by assumption; simpl;
    unfold decode_pair; simpl; rewrite ?HO', ?HW', ?HE', ?HV'; solve_Permutation.
Qed.
Lemma signed_params_match_url_witness :
  in_str "&"%char "9f86d081884c7d659a2feaa0c55ad015" = false
  /\ map decode_pair (parse_query (query_of_url
        (main_comments_url 1084 "CAESEDE2MTc" 1700000000 "9f86d081884c7d659a2feaa0c55ad015")))
     ≡ₚ ("w_rid", pct_decode "9f86d081884c7d659a2feaa0c55ad015")
        :: map decode_pair (parse_query (sign_str 1084 "CAESEDE2MTc" 1700000000)).
Proof.
  split; [reflexivity|].
  exact (signed_params_match_url 1084 1700000000 "CAESEDE2MTc" "9f86d081884c7d659a2feaa0c55ad015" eq_refl).
Defined.

End WireClaims.

(** ** The ledger files as text *)

Section LedgerFiles.
Import Wbi Ledger.

Lemma str_app_assoc (a b c : string) : ((a ++ b) ++ c)%string = (a ++ (b ++ c))%string.
Proof. induction a as [|x a IH]; [reflexivity|]. rewrite !append_cons, IH. reflexivity. Qed.

Lemma in_str_app (c : ascii) (a b : string) : in_str c (a ++ b) = in_str c a || in_str c b.
Proof.
  induction a as [|x a IH]; [reflexivity|]. rewrite append_cons. cbn [in_str].
  rewrite IH. apply orb_assoc.
Qed.

Lemma universal_newlines_plain (s : string) :
  in_str cr s = false -> universal_newlines s = s.
Proof.
  induction s as [|c s IH]; intros H; [reflexivity|]. cbn [universal_newlines in_str] in *.
  apply orb_false_iff in H as [Hc H]. rewrite Ascii.eqb_sym in Hc.
  rewrite Hc, IH by exact H. reflexivity.
Qed.

Lemma lines_from_line (cur x rest : string) :
  in_str nl x = false ->
  lines_from cur (x ++ String nl rest) = ((cur ++ x) ++ String nl "")%string :: lines_from "" rest.
Proof.
  revert cur. induction x as [|c x IH]; intros cur Hx.
  - rewrite append_empty_l, append_empty_r. cbn [lines_from]. rewrite Ascii.eqb_refl. reflexivity.
  - rewrite append_cons. cbn [lines_from in_str] in *. apply orb_false_iff in Hx as [Hc Hx].
    rewrite Ascii.eqb_sym in Hc. rewrite Hc, IH by exact Hx.
    rewrite (str_app_assoc cur (String c "") x), append_cons, append_empty_l. reflexivity.
Qed.

Lemma write_lines_app (a b : list string) :
  write_lines (a ++ b) = (write_lines a ++ write_lines b)%string.
Proof.
  induction a as [|m a IH]; simpl; [reflexivity|].
  rewrite IH, !str_app_assoc. reflexivity.
Qed.

Lemma write_lines_no (c : ascii) (ls : list string) :
  c <> nl -> Forall (fun m => in_str c m = false) ls -> in_str c (write_lines ls) = false.
Proof.
  intros Hc Hls. induction Hls as [|m ls Hm _ IH]; [reflexivity|]. simpl.
  rewrite !in_str_app, Hm, IH. cbn [in_str]. rewrite orb_false_r.
  apply Ascii.eqb_neq in Hc. rewrite Hc. reflexivity.
Qed.

Lemma file_lines_write (ls : list string) :
  Forall (fun m => in_str nl m = false) ls ->
  file_lines (write_lines ls) = (fun m => (m ++ String nl "")%string) <$> ls.
Proof.
  unfold file_lines. intros Hls. induction Hls as [|m ls Hm _ IH]; [reflexivity|].
  simpl. rewrite append_cons, append_empty_l, lines_from_line by exact Hm.
  rewrite append_empty_l, IH. reflexivity.
Qed.

Lemma rstrip_nl (x : string) : rstrip (x ++ String nl "") = rstrip x.
Proof.
  induction x as [|c x IH]; [reflexivity|]. rewrite append_cons. cbn [rstrip]. rewrite IH. reflexivity.
Qed.

Lemma strip_nl (x : string) : strip (x ++ String nl "") = strip x.
Proof. unfold strip. rewrite rstrip_nl. reflexivity. Qed.

Lemma load_fold (ls : list string) (acc : gset string) :
  fold_left (fun ids line =>
               let line := strip line in
               if String.eqb line "" then ids else {[line]} ∪ ids) ls acc
  = acc ∪ list_to_set (filter (fun s => s <> "") (strip <$> ls)).
Proof.
  revert acc. induction ls as [|l ls IH]; intros acc; simpl.
  - set_solver.
  - rewrite IH, filter_cons. destruct (String.eqb (strip l) "") eqn:E.
    + apply String.eqb_eq in E. rewrite decide_False by (intros H; apply H, E). set_solver.
    + apply String.eqb_neq in E. rewrite decide_True by exact E. set_solver.
Qed.

Lemma load_write_lines (ls : list string) :
  Forall (fun m => in_str nl m = false /\ in_str cr m = false) ls ->
  load_sent_ids (Some (write_lines ls)) = list_to_set (filter (fun s => s <> "") (strip <$> ls)).
Proof.
  intros Hls. cbn [load_sent_ids].
  rewrite universal_newlines_plain.
  2: { apply write_lines_no; [discriminate|]. eapply Forall_impl; [exact Hls|]. intros m [_ H]; exact H. }
  rewrite file_lines_write.
  2: { eapply Forall_impl; [exact Hls|]. intros m [H _]; exact H. }
  rewrite load_fold.
  assert (Hs : strip <$> ((fun m => (m ++ String nl "")%string) <$> ls) = strip <$> ls).
  { clear Hls. induction ls as [|m ls IH]; [reflexivity|]. rewrite !fmap_cons, strip_nl, IH. reflexivity. }
  rewrite Hs. set_solver.
Qed.

Lemma record_sent_ids_write (ls ids : list string) :
  foldl record_sent_id (Some (write_lines ls)) ids = Some (write_lines (ls ++ ids)).
Proof.
  revert ls. induction ids as [|i ids IH]; intros ls; simpl.
  - rewrite app_nil_r. reflexivity.
  - unfold record_sent_id at 2. simpl.
    replace ((write_lines ls ++ i ++ String nl "")%string) with (write_lines (ls ++ [i])).
    + rewrite IH, <- app_assoc. reflexivity.
    + rewrite write_lines_app. simpl. rewrite append_empty_r. reflexivity.
Qed.

Lemma record_sent_ids_none (ids : list string) :
  foldl record_sent_id None ids = match ids with [] => None | _ => Some (write_lines ids) end.
Proof.
  destruct ids as [|i ids]; [reflexivity|]. simpl.
  replace (record_sent_id None i) with (Some (write_lines [i])).
  - rewrite record_sent_ids_write. reflexivity.
  - unfold record_sent_id. simpl. rewrite append_empty_l, append_empty_r. reflexivity.
Qed.

End LedgerFiles.

Section LedgerRoundTrips.
Import Wbi Ledger.

(** Reading back a ledger: after [_record_sent_id] has appended the ids
    [ids] to a missing ledger file, [_load_sent_ids] returns the set of
    the stripped ids, without the ids that strip to the empty string,
    provided no id contains a line break (["\n"] or ["\r"]). *)
Theorem load_recorded_ids (ids : list string) :
  Forall (fun id => in_str nl id = false /\ in_str cr id = false) ids ->
  load_sent_ids (foldl record_sent_id None ids)
  = list_to_set (filter (fun s => s <> "") (strip <$> ids)).
Proof.
  intros Hids. rewrite record_sent_ids_none. destruct ids as [|i ids].
  - reflexivity.
  - apply load_write_lines. exact Hids.
Qed.

Lemma load_recorded_ids_witness :
  Forall (fun id => in_str nl id = false /\ in_str cr id = false) [" BV1xx "; ""; "BV2yy"]
  /\ load_sent_ids (foldl record_sent_id None [" BV1xx "; ""; "BV2yy"])
     = list_to_set (filter (fun s => s <> "") (strip <$> [" BV1xx "; ""; "BV2yy"])).
Proof.
  assert (H : Forall (fun id => in_str nl id = false /\ in_str cr id = false) [" BV1xx "; ""; "BV2yy"])
    by (repeat constructor).
  split; [exact H|]. apply (load_recorded_ids [" BV1xx "; ""; "BV2yy"]). exact H.
Defined.

(** The pending-user file across runs: when the ids in
    [user_mids - saved_mids] are non-empty, unchanged by [strip()] and
    free of line breaks, the [get_pending_mids()] of the next run reads
    back exactly the set that the shutdown step of [run] wrote with
    [update_pending_mids]; an empty set deletes the file and reads back
    as the empty set. *)
Theorem pending_mids_round_trip (user_mids saved_mids : gset string) (f : pending_file) :
  set_Forall (fun m => m <> "" /\ strip m = m /\ in_str nl m = false /\ in_str cr m = false)
    (user_mids ∖ saved_mids) ->
  get_pending_mids (shutdown_pending user_mids saved_mids f) = user_mids ∖ saved_mids.
Proof.
  intros Hall. unfold shutdown_pending, update_pending_mids, get_pending_mids.
  case_bool_decide as Hemp.
  - rewrite Hemp. reflexivity.
  - cbn [pending_text]. rewrite load_write_lines.
    2: { apply Forall_forall. intros m Hm. apply elem_of_elements in Hm.
         destruct (Hall m Hm) as (_ & _ & H1 & H2). split; assumption. }
    apply set_eq. intros x. rewrite elem_of_list_to_set, list_elem_of_filter, list_elem_of_fmap.
    split.
    + intros [_ (y & -> & Hy)]. apply elem_of_elements in Hy.
      destruct (Hall y Hy) as (_ & -> & _). exact Hy.
    + intros Hx. destruct (Hall x Hx) as (Hne & Hs & _). split; [exact Hne|].
      exists x. split; [symmetry; exact Hs|]. apply elem_of_elements. exact Hx.
Qed.

Lemma pending_mids_round_trip_witness :
  set_Forall (fun m => m <> "" /\ strip m = m /\ in_str nl m = false /\ in_str cr m = false)
    ({["123"; "456"]} ∖ {["456"]} : gset string)
  /\ get_pending_mids (shutdown_pending {["123"; "456"]} {["456"]} None)
     = ({["123"; "456"]} ∖ {["456"]} : gset string).
Proof.
  assert (H : set_Forall (fun m => m <> "" /\ strip m = m /\ in_str nl m = false /\ in_str cr m = false)
                ({["123"; "456"]} ∖ {["456"]} : gset string)).
  { intros m Hm. assert (m = "123") as -> by set_solver. split; [discriminate|]. split; [reflexivity|]. split; reflexivity. }
  split; [exact H|]. apply (pending_mids_round_trip {["123"; "456"]} {["456"]} None). exact H.
Defined.

End LedgerRoundTrips.

Section LedgerSound.
Import Wbi Ledger.

Lemma ledger_text_records (file : string) (f0 : ledger_file) (log : list event) :
  ledger_text file f0 log
  = foldl record_sent_id f0
      (omap (fun ev => match ev with
                       | ERecord g k => if String.eqb g file then Some k else None
                       | ESend _ _ => None
                       end) log).
Proof.
  unfold ledger_text. revert f0. induction log as [|[t k|g k] log IH]; intros f0; simpl.
  - reflexivity.
  - apply IH.
  - destruct (String.eqb g file); simpl; apply IH.
Qed.

Lemma load_recorded_ids_from (ids : list string) (x : string) :
  Forall (fun id => in_str nl id = false /\ in_str cr id = false) ids ->
  x ∈ load_sent_ids (foldl record_sent_id None ids) -> exists k, k ∈ ids /\ strip k = x.
Proof.
  intros Hids Hx. rewrite record_sent_ids_none in Hx. destruct ids as [|i ids].
  - cbn in Hx. set_solver.
  - rewrite load_write_lines in Hx by exact Hids.
    apply elem_of_list_to_set, list_elem_of_filter in Hx as [_ Hx].
    apply list_elem_of_fmap in Hx as (k & -> & Hk). exists k. split; [exact Hk | reflexivity].
Qed.

Lemma ledger_ok_from_record (seen log : list event) (f t k : string) :
  ledger_ok_from seen log -> In (ERecord f k) log -> ledger_topic f = Some t ->
  In (ESend t k) (seen ++ log).
Proof.
  revert seen. induction log as [|ev log IH]; intros seen Hok Hin Ht; [destruct Hin|].
  destruct Hin as [-> | Hin].
  - destruct Hok as [Hs _]. apply in_or_app. left. apply Hs, Ht.
  - replace (seen ++ ev :: log) with ((seen ++ [ev]) ++ log) by (rewrite <- app_assoc; reflexivity).
    destruct ev as [t' k'|f' k'].
    + apply (IH (seen ++ [ESend t' k'])); [exact Hok | exact Hin | exact Ht].
    + destruct Hok as [_ Hok]. apply (IH (seen ++ [ERecord f' k'])); [exact Hok | exact Hin | exact Ht].
Qed.

(** Soundness of the resume sets: in a log of sink calls whose ledgers
    are consistent, every id that [_load_sent_ids] reads back from the
    ledger [file] (started missing) is the [strip()] of a key that was
    sent on the ledger's topic, provided no recorded key contains a line
    break. So [get_saved_video_bvids], [get_saved_comment_rpids] and
    [get_saved_account_mids] never make a resumed run skip an id that was
    not sent. *)
Theorem resume_ids_were_sent (file t : string) (log : list event) :
  ledger_topic file = Some t -> ledger_ok log ->
  (forall k, In (ERecord file k) log -> in_str nl k = false /\ in_str cr k = false) ->
  forall x, x ∈ load_sent_ids (ledger_text file None log) ->
  exists k, In (ESend t k) log /\ strip k = x.
Proof.
  intros Ht Hok Hclean x Hx. rewrite ledger_text_records in Hx.
  apply load_recorded_ids_from in Hx as (k & Hk & Hs).
  - exists k. split; [|exact Hs].
    apply list_elem_of_omap in Hk as (ev & Hev & Hsel).
    destruct ev as [t' k'|g k']; [discriminate|].
    destruct (String.eqb g file) eqn:Eg; [|discriminate].
    injection Hsel as ->. apply String.eqb_eq in Eg as ->.
    apply list_elem_of_In in Hev.
    exact (ledger_ok_from_record [] log file t k Hok Hev Ht).
  - apply Forall_forall. intros k Hk.
    apply list_elem_of_omap in Hk as (ev & Hev & Hsel).
    destruct ev as [t' k'|g k']; [discriminate|].
    destruct (String.eqb g file) eqn:Eg; [|discriminate].
    injection Hsel as ->. apply String.eqb_eq in Eg as ->.
    apply Hclean. apply list_elem_of_In. exact Hev.
Qed.

Lemma resume_ids_were_sent_witness :
  ledger_topic "sent_videos.txt" = Some "claw_video"
  /\ ledger_ok [ESend "claw_video" "BV1xx"; ERecord "sent_videos.txt" "BV1xx"]
  /\ (forall k, In (ERecord "sent_videos.txt" k)
                  [ESend "claw_video" "BV1xx"; ERecord "sent_videos.txt" "BV1xx"] ->
                in_str nl k = false /\ in_str cr k = false)
  /\ (forall x, x ∈ load_sent_ids (ledger_text "sent_videos.txt" None
                    [ESend "claw_video" "BV1xx"; ERecord "sent_videos.txt" "BV1xx"]) ->
      exists k, In (ESend "claw_video" k)
                  [ESend "claw_video" "BV1xx"; ERecord "sent_videos.txt" "BV1xx"] /\ strip k = x).
Proof.
  assert (H1 : ledger_topic "sent_videos.txt" = Some "claw_video") by reflexivity.
  assert (H2 : ledger_ok [ESend "claw_video" "BV1xx"; ERecord "sent_videos.txt" "BV1xx"]).
  { simpl. split; [|exact I]. intros t Ht. injection Ht as <-. left. reflexivity. }
  assert (H3 : forall k, In (ERecord "sent_videos.txt" k)
                  [ESend "claw_video" "BV1xx"; ERecord "sent_videos.txt" "BV1xx"] ->
                in_str nl k = false /\ in_str cr k = false).
  { intros k Hk. simpl in Hk. destruct Hk as [Hk | [Hk | []]]; [discriminate|].
    injection Hk as <-. split; reflexivity. }
  split; [exact H1|]. split; [exact H2|]. split; [exact H3|].
  exact (resume_ids_were_sent "sent_videos.txt" "claw_video"
           [ESend "claw_video" "BV1xx"; ERecord "sent_videos.txt" "BV1xx"] H1 H2 H3).
Defined.

End LedgerSound.

(** ** Collected user ids *)

Section UserMids.
Import Ledger Mids.

Lemma restore_pending_fold (saved_mids : gset string) (l : list string) (s : mid_state) :
  let s' := foldl (fun s mid =>
                     if bool_decide (mid ∈ saved_mids) then s
                     else mkMids ({[mid]} ∪ user_mids s) (pending s) (queued s ++ [mid])) s l in
  queued s' = queued s ++ filter (fun m => m ∉ saved_mids) l
  /\ user_mids s' = list_to_set (filter (fun m => m ∉ saved_mids) l) ∪ user_mids s.
Proof.
  revert s. induction l as [|m l IH]; intros s; simpl.
  - rewrite app_nil_r. split; [reflexivity|]. set_solver.
  - rewrite filter_cons. case_bool_decide as Hm.
    + rewrite decide_False by (intros H; apply H, Hm). apply IH.
    + rewrite decide_True by exact Hm. destruct (IH (mkMids ({[m]} ∪ user_mids s) (pending s) (queued s ++ [m])))
        as [Hq Hu].
      simpl in Hq, Hu. split.
      * rewrite Hq, <- app_assoc. reflexivity.
      * rewrite Hu. set_solver.
Qed.

Lemma add_user_mid_inv (saved_mids : gset string) (m : string) (s : mid_state) :
  NoDup (queued s) -> (forall x, x ∈ queued s -> (x ∉ saved_mids) /\ x ∈ user_mids s) ->
  let s' := add_user_mid true saved_mids m s in
  NoDup (queued s') /\ (forall x, x ∈ queued s' -> (x ∉ saved_mids) /\ x ∈ user_mids s').
Proof.
  intros Hnd Hq. unfold add_user_mid. case_bool_decide as Hu; [split; assumption|].
  simpl. case_bool_decide as Hs; simpl.
  - split; [exact Hnd|]. intros x Hx. destruct (Hq x Hx). split; [assumption|]. set_solver.
  - split.
    + apply NoDup_app. split; [exact Hnd|]. split; [|apply NoDup_singleton].
      intros x Hx Hx'. apply list_elem_of_singleton in Hx' as ->. apply Hu, Hq, Hx.
    + intros x Hx. apply elem_of_app in Hx as [Hx | Hx].
      * destruct (Hq x Hx). split; [assumption|]. set_solver.
      * apply list_elem_of_singleton in Hx as ->. split; [exact Hs|]. set_solver.
Qed.

(** [BiliCrawler] with [resume] on: from the start of [run] (the pending
    ids restored, [saved_mids] as loaded), whatever ids the workers then
    pass to [_add_user_mid], no id is put on [user_mid_queue] twice, no
    id in [saved_mids] is put on it, and every queued id is in
    [user_mids]. *)
Theorem user_mid_queue_distinct_unsaved (saved_mids : gset string) (f : pending_file)
    (mids : list string) :
  let s := add_user_mids true saved_mids mids (run_start saved_mids f) in
  NoDup (queued s) /\ (forall x, x ∈ queued s -> (x ∉ saved_mids) /\ x ∈ user_mids s).
Proof.
  unfold run_start, restore_pending.
  destruct (restore_pending_fold saved_mids (elements (get_pending_mids f)) (mkMids ∅ f []))
    as [Hq Hu].
  simpl in Hq, Hu.
  generalize dependent (foldl (fun s mid =>
                     if bool_decide (mid ∈ saved_mids) then s
                     else mkMids ({[mid]} ∪ user_mids s) (pending s) (queued s ++ [mid]))
                (mkMids ∅ f []) (elements (get_pending_mids f))).
  intros s0 Hq Hu.
  assert (Hinv : NoDup (queued s0) /\ (forall x, x ∈ queued s0 -> (x ∉ saved_mids) /\ x ∈ user_mids s0)).
  { rewrite Hq, Hu. split.
    - apply NoDup_filter, NoDup_elements.
    - intros x Hx. pose proof Hx as Hx'. apply list_elem_of_filter in Hx' as [Hs _].
      split; [exact Hs|]. apply elem_of_union_l, elem_of_list_to_set. exact Hx. }
  clear Hq Hu. revert s0 Hinv. induction mids as [|m mids IH]; intros s0 [Hnd Hq]; cbn [add_user_mids].
  - split; assumption.
  - apply IH. apply add_user_mid_inv; assumption.
Qed.

End UserMids.

(** ** Search paging and the detail chunks *)

Section SearchPlan.
Import Search.

Lemma map_add_seq (k a len : nat) : map (fun page => k + page) (seq a len) = seq (k + a) len.
Proof.
  revert a. induction len as [|len IH]; intros a; [reflexivity|]. simpl.
  rewrite IH. f_equal. f_equal. lia.
Qed.

(** The search threads of [search_videos_parallel] together request each
    page [1 .. n_threads * pages_per_thread] exactly once, in order of
    thread id. *)
Theorem search_pages_cover (n_threads pages_per_thread : nat) :
  search_pages n_threads pages_per_thread = seq 1 (n_threads * pages_per_thread).
Proof.
  unfold search_pages. induction n_threads as [|n IH]; [reflexivity|].
  rewrite seq_S, map_app, concat_app, IH. simpl. rewrite app_nil_r.
  unfold search_worker_pages. rewrite map_add_seq.
  replace (pages_per_thread + n * pages_per_thread) with (n * pages_per_thread + pages_per_thread) by lia.
  rewrite seq_app. f_equal. f_equal. lia.
Qed.

Lemma range_step_chunks {A} (l : list A) (step fuel i : nat) :
  1 <= step -> length l - i <= fuel ->
  concat (map (fun j => take step (drop j l)) (range_step_go fuel i (length l) step)) = drop i l.
Proof.
  revert i. induction fuel as [|fuel IH]; intros i Hs Hf; simpl.
  - rewrite drop_ge by lia. reflexivity.
  - destruct (Nat.ltb i (length l)) eqn:Hi.
    + simpl. rewrite IH by lia. rewrite <- drop_drop, take_drop. reflexivity.
    + apply Nat.ltb_ge in Hi. rewrite drop_ge by lia. reflexivity.
Qed.

Lemma range_step_length (len step fuel i m : nat) :
  1 <= step -> len <= i + m * step -> length (range_step_go fuel i len step) <= m.
Proof.
  revert i m. induction fuel as [|fuel IH]; intros i m Hs Hm; simpl; [lia|].
  destruct (Nat.ltb i len) eqn:Hi; simpl; [|lia].
  apply Nat.ltb_lt in Hi. destruct m as [|m]; [lia|].
  apply le_n_S, IH; [exact Hs|]. simpl in Hm. lia.
Qed.

Lemma range_step_lt (len step fuel i j : nat) :
  j ∈ range_step_go fuel i len step -> j < len.
Proof.
  revert i. induction fuel as [|fuel IH]; intros i Hj; simpl in Hj; [apply elem_of_nil in Hj; contradiction|].
  destruct (Nat.ltb i len) eqn:Hi; [|apply elem_of_nil in Hj; contradiction].
  apply elem_of_cons in Hj as [-> | Hj]; [apply Nat.ltb_lt; exact Hi | exact (IH _ Hj)].
Qed.

(** [search_videos_parallel] with at least one thread splits the new
    videos into chunks that, concatenated, give back the list unchanged
    (no video lost, repeated or reordered); there are at most [n_threads]
    chunks, so at most [n_threads] detail threads, and none is empty. *)
Theorem video_chunks_partition {A} (unique_videos : list A) (n_threads : nat) :
  1 <= n_threads ->
  exists chunks, video_chunks unique_videos n_threads = POk chunks
    /\ concat chunks = unique_videos /\ length chunks <= n_threads
    /\ Forall (fun c => c <> []) chunks.
Proof.
  intros Hn. unfold video_chunks. destruct unique_videos as [|v vs].
  { exists []. split; [reflexivity|]. split; [reflexivity|]. split; [simpl; lia | constructor]. }
  cbv beta iota. set (l := v :: vs).
  assert (Hlen : 1 <= length l) by (simpl; lia).
  set (L := length l). set (cs := (L + n_threads - 1) / n_threads).
  assert (Hdm := Nat.div_mod (L + n_threads - 1) n_threads ltac:(lia)).
  assert (Hmb := Nat.mod_upper_bound (L + n_threads - 1) n_threads ltac:(lia)).
  fold cs in Hdm.
  assert (Hcs : 1 <= cs) by nia.
  assert (Hcov : L <= n_threads * cs) by lia.
  destruct (Nat.eqb n_threads 0) eqn:Hz; [apply Nat.eqb_eq in Hz; lia|].
  unfold py_range_step. destruct (Nat.eqb cs 0) eqn:Hc; [apply Nat.eqb_eq in Hc; lia|].
  cbn [pbind]. eexists. split; [reflexivity|]. unfold L. split; [|split].
  - rewrite range_step_chunks by lia. reflexivity.
  - rewrite length_map. apply range_step_length; lia.
  - apply Forall_forall. intros c Hc'. apply list_elem_of_fmap in Hc' as (j & -> & Hj).
    apply range_step_lt in Hj. intros Hnil.
    apply (f_equal length) in Hnil. rewrite length_take, length_drop in Hnil.
    change (length (@nil A)) with 0 in Hnil. lia.
Qed.

Lemma video_chunks_partition_witness :
  1 <= 2 /\
  exists chunks, video_chunks [1; 2; 3] 2 = POk chunks
    /\ concat chunks = [1; 2; 3] /\ length chunks <= 2
    /\ Forall (fun c => c <> []) chunks.
Proof. split; [lia|]. apply (video_chunks_partition [1; 2; 3] 2). lia. Defined.

End SearchPlan.

(** ** WBI keys *)

Section WbiKeyProps.
Import Wbi WbiKeys.

Lemma string_get_lt (s : string) (i : nat) : i < String.length s -> exists c, String.get i s = Some c.
Proof.
  revert i. induction s as [|c s IH]; intros i Hi; simpl in Hi; [lia|].
  destruct i as [|i]; simpl; [eauto|]. apply IH. lia.
Qed.

Lemma string_get_ge (s : string) (i : nat) : String.length s <= i -> String.get i s = None.
Proof.
  revert i. induction s as [|c s IH]; intros i Hi; [reflexivity|]. simpl in Hi.
  destruct i as [|i]; [lia|]. simpl. apply IH. lia.
Qed.

Lemma index_all_ok (orig : string) (idx : list nat) :
  Forall (fun i => i < String.length orig) idx ->
  exists cs, index_all orig idx = POk cs.
Proof.
  intros H. induction H as [|i idx Hi _ [cs IH]]; [eexists; reflexivity|].
  destruct (string_get_lt orig i Hi) as [c Hc].
  exists (c :: cs). simpl. unfold py_index. rewrite Hc. simpl. rewrite IH. reflexivity.
Qed.

Lemma index_all_length (orig : string) (idx : list nat) (cs : list ascii) :
  index_all orig idx = POk cs -> length cs = length idx.
Proof.
  revert cs. induction idx as [|i idx IH]; intros cs H; simpl in H.
  - injection H as <-. reflexivity.
  - unfold py_index in H. destruct (String.get i orig); [|discriminate]. simpl in H.
    destruct (index_all orig idx) as [cs'|]; [|discriminate]. simpl in H.
    injection H as <-. simpl. f_equal. apply IH. reflexivity.
Qed.

Lemma index_all_exc (orig : string) (idx : list nat) (i : nat) :
  i ∈ idx -> String.length orig <= i -> exists e, index_all orig idx = PExc e.
Proof.
  intros Hi Hle. induction idx as [|j idx IH]; [apply elem_of_nil in Hi; contradiction|].
  simpl. unfold py_index. apply elem_of_cons in Hi as [-> | Hi].
  - rewrite string_get_ge by exact Hle. eexists. reflexivity.
  - destruct (String.get j orig); simpl; [|eexists; reflexivity].
    destruct (IH Hi) as [e ->]. eexists. reflexivity.
Qed.

Lemma length_string_of_list_ascii (cs : list ascii) :
  String.length (String.string_of_list_ascii cs) = length cs.
Proof. induction cs as [|c cs IH]; simpl; [reflexivity|]. rewrite IH. reflexivity. Qed.

Lemma length_substring_0 (m : nat) (s : string) :
  m <= String.length s -> String.length (String.substring 0 m s) = m.
Proof.
  revert s. induction m as [|m IH]; intros s Hm; [destruct s; reflexivity|].
  destruct s as [|c s]; simpl in Hm; [lia|]. simpl. rewrite IH by lia. reflexivity.
Qed.

Lemma get_mixin_key_length_32 (orig m : string) :
  get_mixin_key orig = POk m -> String.length m = 32.
Proof.
  unfold get_mixin_key. destruct (index_all orig WBI_MIXIN_KEY_ENC_TAB) as [cs|] eqn:E;
    simpl; [|discriminate].
  intros H. injection H as <-. apply index_all_length in E.
  rewrite length_substring_0; [reflexivity|].
  rewrite length_string_of_list_ascii, E. simpl. lia.
Qed.

(** [_get_mixin_key(orig)] raises [IndexError] exactly when [orig] is
    shorter than 64 characters (the table's indices are 0..63); otherwise
    its result has exactly 32 characters. *)
Theorem get_mixin_key_index_error (orig : string) :
  ((exists e, get_mixin_key orig = PExc e) <-> String.length orig < 64)
  /\ (forall m, get_mixin_key orig = POk m -> String.length m = 32).
Proof.
  split; [|apply get_mixin_key_length_32].
  assert (Htab : Forall (fun i => i < 64) WBI_MIXIN_KEY_ENC_TAB) by (repeat constructor; lia).
  split.
  - intros [e He]. destruct (Nat.lt_ge_cases (String.length orig) 64) as [Hl | Hl]; [exact Hl|].
    destruct (index_all_ok orig WBI_MIXIN_KEY_ENC_TAB) as [cs Hcs].
    + eapply Forall_impl; [exact Htab|]. intros i Hi. simpl in Hi. lia.
    + unfold get_mixin_key in He. rewrite Hcs in He. discriminate.
  - intros Hl. unfold get_mixin_key.
    destruct (index_all_exc orig WBI_MIXIN_KEY_ENC_TAB 63) as [e ->].
    + apply list_elem_of_In. simpl. tauto.
    + lia.
    + eexists. reflexivity.
Qed.

Lemma rsplit1_no_sep (sep : ascii) (s : string) : in_str sep s = false -> rsplit1 sep s = [s].
Proof.
  induction s as [|c s IH]; intros Hs; [reflexivity|]. cbn [in_str] in Hs.
  apply orb_false_iff in Hs as [Hc Hs]. cbn [rsplit1]. rewrite IH by exact Hs.
  rewrite Ascii.eqb_sym, Hc. reflexivity.
Qed.

Lemma rsplit1_last (sep : ascii) (p r : string) :
  in_str sep r = false -> rsplit1 sep (p ++ String sep r) = [p; r].
Proof.
  intros Hr. induction p as [|c p IH].
  - rewrite append_empty_l. cbn [rsplit1]. rewrite rsplit1_no_sep by exact Hr.
    rewrite Ascii.eqb_refl. reflexivity.
  - rewrite append_cons. cbn [rsplit1]. rewrite IH. reflexivity.
Qed.

Lemma url_key_stem (dir key ext : string) :
  in_str "/" key = false -> in_str "." key = false -> in_str "/" ext = false ->
  url_key (JStr (dir ++ "/" ++ key ++ "." ++ ext)) = POk key.
Proof.
  intros Hk1 Hk2 He. unfold url_key.
  rewrite !append_cons, !append_empty_l.
  rewrite rsplit1_last.
  - rewrite split_on_app_sep by exact Hk2. reflexivity.
  - rewrite in_str_app. cbn [in_str]. rewrite Hk1, He. reflexivity.
Qed.

(** Key extraction in [_get_wbi_keys]: when the [nav] response holds
    [data.wbi_img.img_url] and [data.wbi_img.sub_url] of the form
    [dir/key.ext], with no ['/'] or ['.'] in [key] and no ['/'] in
    [ext], the function returns the two [key]s, the file names without
    path and extension. *)
Theorem get_wbi_keys_file_stems (data : json)
    (img_dir img_key img_ext sub_dir sub_key sub_ext : string) :
  path_lookup data ["data"; "wbi_img"; "img_url"]
    = Some (JStr (img_dir ++ "/" ++ img_key ++ "." ++ img_ext)) ->
  path_lookup data ["data"; "wbi_img"; "sub_url"]
    = Some (JStr (sub_dir ++ "/" ++ sub_key ++ "." ++ sub_ext)) ->
  in_str "/" img_key = false -> in_str "." img_key = false -> in_str "/" img_ext = false ->
  in_str "/" sub_key = false -> in_str "." sub_key = false -> in_str "/" sub_ext = false ->
  get_wbi_keys (POk data) = Some (img_key, sub_key).
Proof.
  intros H1 H2 Hi1 Hi2 Hi3 Hs1 Hs2 Hs3.
  destruct data as [| | | | |kvs]; try discriminate. cbn [path_lookup] in H1, H2.
  destruct (obj_lookup "data" kvs) as [d|] eqn:Ed; [|discriminate].
  destruct d as [| | | | |kvs2]; try discriminate. cbn [path_lookup] in H1, H2.
  destruct (obj_lookup "wbi_img" kvs2) as [w|] eqn:Ew; [|discriminate].
  destruct w as [| | | | |kvs3]; try discriminate. cbn [path_lookup] in H1, H2.
  destruct (obj_lookup "img_url" kvs3) as [iu|] eqn:Ei; [|discriminate].
  destruct (obj_lookup "sub_url" kvs3) as [su|] eqn:Es; [|discriminate].
  injection H1 as ->. injection H2 as ->.
  assert (Hne : truthy (JObj kvs3) = true) by (destruct kvs3; [discriminate | reflexivity]).
  unfold get_wbi_keys. cbn [pbind py_get]. rewrite Ed. cbn [pbind py_get]. rewrite Ew.
  cbn [pbind]. rewrite Hne. cbn [py_subscript]. rewrite Ei, Es. cbn [pbind].
  rewrite url_key_stem by assumption. cbn [pbind].
  rewrite url_key_stem by assumption. reflexivity.
Qed.

Lemma get_wbi_keys_file_stems_witness :
  let data := JObj [("code", JInt (-101));
                    ("data", JObj [("wbi_img", JObj
                      [("img_url", JStr "https://i0.hdslb.com/bfs/wbi/7cd084941338484aae1ad9425b84077c.png");
                       ("sub_url", JStr "https://i0.hdslb.com/bfs/wbi/4932caff0ff746eab6f01bf08b70ac45.png")])])] in
  path_lookup data ["data"; "wbi_img"; "img_url"]
    = Some (JStr ("https://i0.hdslb.com/bfs/wbi" ++ "/" ++ "7cd084941338484aae1ad9425b84077c" ++ "." ++ "png"))
  /\ path_lookup data ["data"; "wbi_img"; "sub_url"]
    = Some (JStr ("https://i0.hdslb.com/bfs/wbi" ++ "/" ++ "4932caff0ff746eab6f01bf08b70ac45" ++ "." ++ "png"))
  /\ get_wbi_keys (POk data)
     = Some ("7cd084941338484aae1ad9425b84077c", "4932caff0ff746eab6f01bf08b70ac45").
Proof.
  intros data.
  assert (H1 : path_lookup data ["data"; "wbi_img"; "img_url"]
    = Some (JStr ("https://i0.hdslb.com/bfs/wbi" ++ "/" ++ "7cd084941338484aae1ad9425b84077c" ++ "." ++ "png")))
    by reflexivity.
  assert (H2 : path_lookup data ["data"; "wbi_img"; "sub_url"]
    = Some (JStr ("https://i0.hdslb.com/bfs/wbi" ++ "/" ++ "4932caff0ff746eab6f01bf08b70ac45" ++ "." ++ "png")))
    by reflexivity.
  split; [exact H1|]. split; [exact H2|].
  exact (get_wbi_keys_file_stems data _ _ _ _ _ _ H1 H2
           eq_refl eq_refl eq_refl eq_refl eq_refl eq_refl).
Defined.



End WbiKeyProps.

(** ** Cookie errors and the pool's counters *)

Section PoolUseProps.
Import CookiePool PoolUse.

Lemma mark_first_soft_rel (v : string) (cs : list cookie_item) :
  Forall2 (fun c c' => value c' = value c /\ name c' = name c /\ enabled c' = enabled c
                       /\ max_fails c' = max_fails c /\ fail_count c <= fail_count c'
                       /\ (is_valid c' = true -> is_valid c = true))
    cs (mark_first v false cs).
Proof.
  induction cs as [|c cs IH]; simpl; [constructor|].
  destruct (String.eqb (value c) v).
  - constructor.
    + unfold mark_failed. destruct (Nat.leb (max_fails c) (S (fail_count c))); simpl;
        repeat split; try lia; try discriminate; auto.
    + clear IH. induction cs as [|c' cs IH']; constructor; [repeat split; auto | exact IH'].
  - constructor; [repeat split; auto | exact IH].
Qed.

(** [_handle_cookie_error] never re-enables, revives or permanently
    disables a credential: over any run of endpoint responses, each
    credential keeps its value, name, [enabled] flag and [max_fails], its
    [fail_count] can only grow and [is_valid] can only go from [True] to
    [False]; [_index] and the strategy are unchanged, and a run in which
    no code is -101, -352 or -412 leaves the pool as it was. *)
Theorem cookie_errors_only_invalidate (evs : list (option string * json)) (p : pool) :
  let p' := handle_cookie_errors evs p in
  index p' = index p /\ strategy p' = strategy p
  /\ Forall2 (fun c c' => value c' = value c /\ name c' = name c /\ enabled c' = enabled c
                          /\ max_fails c' = max_fails c /\ fail_count c <= fail_count c'
                          /\ (is_valid c' = true -> is_valid c = true))
       (cookies p) (cookies p')
  /\ (Forall (fun ev => is_cookie_error ev.2 = false) evs -> p' = p).
Proof.
  revert p. induction evs as [|[cookie code] evs IH]; intros p; simpl.
  - split; [reflexivity|]. split; [reflexivity|]. split; [|reflexivity].
    induction (cookies p) as [|c cs IH']; constructor; [repeat split; auto | exact IH'].
  - destruct (IH (handle_cookie_error cookie code p)) as (Hi & Hs & Hf & Hn).
    assert (Hstep : index (handle_cookie_error cookie code p) = index p
                    /\ strategy (handle_cookie_error cookie code p) = strategy p
                    /\ Forall2 (fun c c' => value c' = value c /\ name c' = name c /\ enabled c' = enabled c
                          /\ max_fails c' = max_fails c /\ fail_count c <= fail_count c'
                          /\ (is_valid c' = true -> is_valid c = true))
                         (cookies p) (cookies (handle_cookie_error cookie code p))).
    { unfold handle_cookie_error.
      assert (Hrefl : Forall2 (fun c c' => value c' = value c /\ name c' = name c /\ enabled c' = enabled c
                          /\ max_fails c' = max_fails c /\ fail_count c <= fail_count c'
                          /\ (is_valid c' = true -> is_valid c = true)) (cookies p) (cookies p)).
      { induction (cookies p) as [|c cs IH']; constructor; [repeat split; auto | exact IH']. }
      destruct (is_cookie_error code); [|auto].
      destruct cookie as [v|]; [|auto]. destruct (String.eqb v ""); [auto|].
      split; [reflexivity|]. split; [reflexivity|]. apply mark_first_soft_rel. }
    destruct Hstep as (Hi0 & Hs0 & Hf0).
    split; [congruence|]. split; [congruence|]. split.
    + revert Hf. generalize (cookies (handle_cookie_errors evs (handle_cookie_error cookie code p))).
      revert Hf0. generalize (cookies (handle_cookie_error cookie code p)).
      generalize (cookies p). clear.
      intros l0 l1 H01. induction H01 as [|a b l0 l1 Hab H01 IH0]; intros l2 H12;
        inversion H12 as [|b' d l1' l2' Hbd H12']; subst; constructor.
      * destruct Hab as (Ha1 & Ha2 & Ha3 & Ha4 & Ha5 & Ha6).
        destruct Hbd as (Hb1 & Hb2 & Hb3 & Hb4 & Hb5 & Hb6).
        split; [congruence|]. split; [congruence|]. split; [congruence|].
        split; [congruence|]. split; [lia|]. auto.
      * apply IH0. exact H12'.
    + intros Hall. inversion Hall as [|ev evs' Hcode Hrest]; subst. simpl in Hcode.
      unfold handle_cookie_error in Hn |- *. rewrite Hcode in Hn |- *. apply Hn, Hrest.
Qed.

Lemma avail_from_length (i : nat) (cs : list cookie_item) :
  length (avail_from i cs) = length (List.filter (fun c => enabled c && is_valid c) cs).
Proof.
  revert i. induction cs as [|c cs IH]; intros i; simpl; [reflexivity|].
  destruct (enabled c && is_valid c); simpl; rewrite IH; reflexivity.
Qed.

Lemma filter_and_le (cs : list cookie_item) :
  length (List.filter (fun c => enabled c && is_valid c) cs) <= length (List.filter enabled cs).
Proof.
  induction cs as [|c cs IH]; simpl; [lia|].
  destruct (enabled c), (is_valid c); simpl; lia.
Qed.

Lemma select_none_iff (p : pool) (rnd : nat) : select p rnd = None <-> available p = [].
Proof.
  unfold select. destruct (available p) as [|x av] eqn:E; [split; reflexivity|].
  split; [|discriminate].
  destruct (String.eqb (strategy p) "random").
  - destruct ((x :: av) !! (rnd mod length (x :: av))) eqn:L; [discriminate|].
    exfalso. apply lookup_ge_None in L. assert (Hm := Nat.mod_upper_bound rnd (length (x :: av))).
    simpl in *. lia.
  - destruct ((x :: av) !! (index p mod length (x :: av))) eqn:L; [discriminate|].
    exfalso. apply lookup_ge_None in L. assert (Hm := Nat.mod_upper_bound (index p) (length (x :: av))).
    simpl in *. lia.
Qed.

(** [get_status()] and [len(pool)]: [valid <= enabled <= total], [valid]
    equals [len(pool)], which is the number of credentials [get_cookie]
    chooses from, and [get_cookie()] / [get_cookie_item()] return [None]
    exactly when [len(pool) == 0]. *)
Theorem pool_status_counts (p : pool) (rnd : nat) :
  let '(total, en, valid, strat) := get_status p in
  valid <= en <= total /\ valid = pool_len p /\ pool_len p = length (available p)
  /\ strat = strategy p
  /\ ((get_cookie p rnd).1 = None <-> pool_len p = 0)
  /\ ((get_cookie_item p rnd).1 = None <-> pool_len p = 0).
Proof.
  unfold get_status.
  assert (Hav : pool_len p = length (available p)).
  { unfold pool_len, available. rewrite avail_from_length. reflexivity. }
  assert (Hz : available p = [] <-> pool_len p = 0).
  { rewrite Hav. split; [intros ->; reflexivity|]. apply length_zero_iff_nil. }
  split; [split; [apply filter_and_le | apply List.filter_length_le]|].
  split; [reflexivity|]. split; [exact Hav|]. split; [reflexivity|].
  unfold get_cookie, get_cookie_item. split.
  - destruct (select p rnd) as [[[i c] p']|] eqn:E; simpl.
    + split; [discriminate|]. intros H. apply Hz, (select_none_iff p rnd) in H. congruence.
    + split; [intros _; apply Hz, (select_none_iff p rnd), E | reflexivity].
  - destruct (select p rnd) as [[x p']|] eqn:E; simpl.
    + split; [discriminate|]. intros H. apply Hz, (select_none_iff p rnd) in H. congruence.
    + split; [intros _; apply Hz, (select_none_iff p rnd), E | reflexivity].
Qed.

End PoolUseProps.

(** ** Requests above the bucket's capacity *)

Section OverCapacity.
Import RateLimiter.
Local Open Scope Q_scope.

Lemma refill_tokens_le_capacity (now : Q) (b : bucket) : tokens (refill now b) <= capacity b.
Proof. simpl. apply Q.le_min_l. Qed.

Lemma acquire_enter_over_capacity (now n : Q) (blocking : bool) (b : bucket) :
  capacity b < n ->
  acquire_enter now n blocking b =
    if negb blocking then Refused (refill now b)
    else if Qeq_bool (rate b) 0 then Raised "float division by zero"%string (refill now b)
    else MustWait ((n - tokens (refill now b)) / rate b) (refill now b).
Proof.
  intros Hn. unfold acquire_enter.
  destruct (Qle_bool n (tokens (refill now b))) eqn:E; [|reflexivity].
  apply Qle_bool_iff in E. exfalso. apply (Qlt_not_le _ _ Hn).
  eapply Qle_trans; [exact E | apply refill_tokens_le_capacity].
Qed.

Lemma over_capacity_deficit (now n : Q) (b : bucket) :
  capacity b < n -> 0 < n - tokens (refill now b).
Proof.
  intros Hn. apply (proj1 (Qlt_minus_iff _ _)).
  eapply Qle_lt_trans; [apply refill_tokens_le_capacity|exact Hn].
Qed.

Lemma sleep_pos_ok (x r : Q) : 0 < x -> 0 < r -> sleep (x / r) = POk tt.
Proof.
  intros Hx Hr. unfold sleep.
  replace (Qle_bool 0 (x / r)) with true; [reflexivity|].
  symmetry. apply Qle_bool_iff, Qlt_le_weak, Qlt_shift_div_l; [exact Hr|].
  rewrite Qmult_0_l. exact Hx.
Qed.

Lemma sleep_neg_raises (x r : Q) :
  0 < x -> r < 0 -> sleep (x / r) = PExc "sleep length must be non-negative"%string.
Proof.
  intros Hx Hr. unfold sleep.
  assert (Hpos : 0 < x / - r).
  { apply Qlt_shift_div_l; [apply Qlt_minus_iff in Hr; rewrite Qplus_0_l in Hr; exact Hr|].
    rewrite Qmult_0_l. exact Hx. }
  assert (Heq : x / r == - (x / - r)).
  { assert (~ r == 0) by (intros Hz; rewrite Hz in Hr; discriminate Hr). field. exact H. }
  destruct (Qle_bool 0 (x / r)) eqn:E; [|reflexivity].
  apply Qle_bool_iff in E. rewrite Heq in E. exfalso.
  apply (Qlt_not_le _ _ Hpos). apply Qopp_le_compat in E. rewrite Qopp_involutive in E.
  exact E.
Qed.

Lemma rate_nonzero (r : Q) : 0 < r \/ r < 0 -> Qeq_bool r 0 = false.
Proof.
  intros Hr. destruct (Qeq_bool r 0) eqn:E; [|reflexivity].
  apply Qeq_bool_iff in E. rewrite E in Hr. destruct Hr as [Hr|Hr]; discriminate Hr.
Qed.

(** [src/spider-py]: a request for more tokens than the bucket's
    capacity never returns [True], whatever other threads do between its
    attempts (none of the bucket's methods changes [capacity]).
    Non-blocking, it returns [False]. Blocking: if the rate is positive
    and stays positive, it keeps sleeping and retrying (still waiting
    whenever the other threads' steps run out); a rate of [0] raises
    [ZeroDivisionError] and a negative rate makes [time.sleep] raise
    [ValueError]. *)
Theorem acquire_py_over_capacity_never_granted (sched : list (Q * (bucket -> bucket))) :
  Forall (fun tf => forall b, capacity (tf.2 b) = capacity b) sched ->
  forall t0 n blocking b, capacity b < n ->
  (acquire_py t0 sched n blocking b).1 <> Some (POk true)
  /\ (blocking = false -> (acquire_py t0 sched n blocking b).1 = Some (POk false))
  /\ (blocking = true -> 0 < rate b ->
      Forall (fun tf => forall b, 0 < rate b -> 0 < rate (tf.2 b)) sched ->
      (acquire_py t0 sched n blocking b).1 = None)
  /\ (blocking = true -> rate b == 0 ->
      (acquire_py t0 sched n blocking b).1 = Some (PExc "float division by zero"%string))
  /\ (blocking = true -> rate b < 0 ->
      (acquire_py t0 sched n blocking b).1
        = Some (PExc "sleep length must be non-negative"%string)).
Proof.
  intros Hs t0 n blocking b Hn.
  assert (Hfirst : forall t0 b sched, capacity b < n ->
    acquire_py t0 sched n blocking b =
    match (if negb blocking then Refused (refill t0 b)
           else if Qeq_bool (rate b) 0 then Raised "float division by zero"%string (refill t0 b)
           else MustWait ((n - tokens (refill t0 b)) / rate b) (refill t0 b)) with
    | Granted b' => (Some (POk true), b')
    | Refused b' => (Some (POk false), b')
    | Raised e b' => (Some (PExc e), b')
    | MustWait w b' =>
        match sleep w with
        | PExc e => (Some (PExc e), b')
        | POk _ =>
            match sched with
            | [] => (None, b')
            | (t1, during) :: rest => acquire_py t1 rest n blocking (during b')
            end
        end
    end).
  { intros t0' b0 sched0 Hn0. destruct sched0; cbn [acquire_py];
      rewrite (acquire_enter_over_capacity t0' n blocking b0 Hn0); reflexivity. }
  split; [|split; [|split; [|split]]].
  - revert t0 b Hn. induction Hs as [|[t1 during] rest Hd _ IH]; intros t0 b Hn;
      rewrite (Hfirst t0 b _ Hn);
      (destruct (negb blocking); [discriminate|]);
      (destruct (Qeq_bool (rate b) 0); [discriminate|]);
      (destruct (sleep _); [|discriminate]).
    + cbn. discriminate.
    + apply IH. simpl in Hd. rewrite Hd. exact Hn.
  - intros ->. rewrite (Hfirst t0 b _ Hn). reflexivity.
  - intros -> Hr Hpos. clear Hfirst. revert t0 b Hn Hr Hs Hpos.
    induction sched as [|[t1 during] rest IH]; intros t0 b Hn Hr Hs Hpos;
      cbn [acquire_py]; rewrite (acquire_enter_over_capacity t0 n true b Hn); cbn [negb];
      rewrite (rate_nonzero _ (or_introl Hr));
      rewrite (sleep_pos_ok _ _ (over_capacity_deficit t0 n b Hn) Hr).
    + reflexivity.
    + inversion Hpos as [|tf l Hd Hrest]; subst. inversion Hs as [|tf l Hc Hcs]; subst.
      apply IH; [| |exact Hcs|exact Hrest].
      * simpl in Hc. rewrite Hc. exact Hn.
      * exact (Hd (refill t0 b) Hr).
  - intros -> Hz. rewrite (Hfirst t0 b _ Hn). cbn [negb].
    apply Qeq_bool_iff in Hz. rewrite Hz. reflexivity.
  - intros -> Hr. rewrite (Hfirst t0 b _ Hn). cbn [negb].
    rewrite (rate_nonzero _ (or_intror Hr)).
    rewrite (sleep_neg_raises _ _ (over_capacity_deficit t0 n b Hn) Hr). reflexivity.
Qed.

Lemma acquire_py_over_capacity_never_granted_witness :
  let sched := [(1, set_rate 1 1); (2, fun b => b)] in
  Forall (fun tf => forall b, capacity (tf.2 b) = capacity b) sched
  /\ capacity (mkBucket 2 5 5 0) < 6
  /\ (acquire_py 0 sched 6 true (mkBucket 2 5 5 0)).1 = None.
Proof.
  intros sched.
  assert (Hs : Forall (fun tf => forall b, capacity (tf.2 b) = capacity b) sched).
  { repeat constructor. }
  assert (Hn : capacity (mkBucket 2 5 5 0) < 6) by (vm_compute; reflexivity).
  assert (Hpos : Forall (fun tf => forall b, 0 < rate b -> 0 < rate (tf.2 b)) sched).
  { constructor; [intros b' _; vm_compute; reflexivity|].
    constructor; [intros b' Hb; exact Hb|constructor]. }
  split; [exact Hs|]. split; [exact Hn|].
  exact (proj1 (proj2 (proj2 (acquire_py_over_capacity_never_granted sched Hs 0 6 true _ Hn)))
           eq_refl ltac:(vm_compute; reflexivity) Hpos).
Defined.

(** [src/spider]: a blocking request for more tokens than the bucket's
    capacity, at a positive rate, always returns [True] after one sleep,
    and leaves at most [capacity - n] tokens, a negative count, whatever
    other threads did during the sleep. *)
Theorem acquire_spider_over_capacity_negative (t0 t1 n : Q) (during : bucket -> bucket) (b : bucket) :
  capacity b < n -> 0 < rate b -> (forall b, capacity (during b) = capacity b) ->
  (acquire_spider t0 during t1 n true b).1 = POk true
  /\ tokens (acquire_spider t0 during t1 n true b).2 <= capacity b - n
  /\ tokens (acquire_spider t0 during t1 n true b).2 < 0.
Proof.
  intros Hn Hr Hd. unfold acquire_spider.
  rewrite (acquire_enter_over_capacity t0 n true b Hn). cbn [negb].
  rewrite (rate_nonzero _ (or_introl Hr)).
  rewrite (sleep_pos_ok _ _ (over_capacity_deficit t0 n b Hn) Hr).
  set (b2 := refill t1 (during (refill t0 b))).
  assert (Hle : tokens b2 <= capacity b).
  { unfold b2. eapply Qle_trans; [apply refill_tokens_le_capacity|]. rewrite Hd. apply Qle_refl. }
  cbn [fst snd tokens with_tokens]. split; [reflexivity|].
  split.
  - apply Qplus_le_l with (z := n). ring_simplify. exact Hle.
  - apply Qplus_lt_l with (z := n). ring_simplify. eapply Qle_lt_trans; [exact Hle | exact Hn].
Qed.

Lemma acquire_spider_over_capacity_negative_witness :
  capacity (mkBucket 2 5 5 0) < 6 /\ 0 < rate (mkBucket 2 5 5 0)
  /\ (forall b, capacity (set_rate 0 1 b) = capacity b)
  /\ (acquire_spider 0 (set_rate 0 1) 100 6 true (mkBucket 2 5 5 0)).1 = POk true
  /\ tokens (acquire_spider 0 (set_rate 0 1) 100 6 true (mkBucket 2 5 5 0)).2 < 0.
Proof.
  assert (Hn : capacity (mkBucket 2 5 5 0) < 6) by (vm_compute; reflexivity).
  assert (Hr : 0 < rate (mkBucket 2 5 5 0)) by (vm_compute; reflexivity).
  assert (Hd : forall b, capacity (set_rate 0 1 b) = capacity b) by reflexivity.
  split; [exact Hn|]. split; [exact Hr|]. split; [exact Hd|].
  destruct (acquire_spider_over_capacity_negative 0 100 6 (set_rate 0 1) (mkBucket 2 5 5 0) Hn Hr Hd)
    as (H1 & _ & H3).
  split; [exact H1|exact H3].
Defined.

End OverCapacity.

(** ** Loading [cookies.json] *)

Section CookieLoading.
Import CookieLoad.

Lemma load_items_app_non_object (pre post : list json) (bad : json) (acc : list loaded_cookie) :
  (forall kvs, bad <> JObj kvs) ->
  (load_items (pre ++ bad :: post) acc).1 = (load_items pre acc).1 /\
  (load_items (pre ++ bad :: post) acc).2 <> None.
Proof.
  intros Hbad. revert acc.
  induction pre as [|item pre IH]; intros acc; cbn [app load_items].
  - destruct bad; try (exfalso; eapply Hbad; reflexivity); cbn; split; congruence.
  - destruct item; try (cbn; split; congruence).
    destruct (truthy _); [destruct (truthy _)|]; apply IH.
Qed.

(** The entries of ["cookies"] that follow the first entry that is not a
    JSON object are never loaded: the exception it raises ([.get] on a
    non-dict) ends the loop, is caught, and leaves the strategy and the
    cookies loaded before it, as if the list had stopped there; and
    [validate_on_load] is then not honoured. *)
Theorem load_cookies_stops_at_non_object (rest : list (string * json)) (pre post : list json) (bad : json) :
  (forall kvs, bad <> JObj kvs) ->
  let cfg items := Some (POk (JObj (("cookies", JList items) :: rest))) in
  r_strategy (load_cookies (cfg (pre ++ bad :: post))) = r_strategy (load_cookies (cfg pre)) /\
  r_cookies (load_cookies (cfg (pre ++ bad :: post))) = r_cookies (load_cookies (cfg pre)) /\
  r_validate (load_cookies (cfg (pre ++ bad :: post))) = false.
Proof.
  intros Hbad cfg. subst cfg. cbv beta.
  destruct (load_items_app_non_object pre post bad [] Hbad) as [H1 H2].
  unfold load_cookies. cbn [py_get obj_lookup String.eqb Ascii.eqb Bool.eqb].
  destruct (match obj_lookup "settings" rest with Some v => v | None => JObj [] end) as
    [| | | | |skvs]; cbn [py_get]; try (repeat split; reflexivity).
  cbn [pbind py_iter].
  destruct (load_items (pre ++ bad :: post) []) as [acc [e|]] eqn:E; [|cbn in H2; congruence].
  cbn in H1. subst acc.
  destruct (load_items pre []) as [acc' [e'|]];
    [|destruct (py_get (JObj skvs) "validate_on_load" (JBool false))]; repeat split; reflexivity.
Qed.

End CookieLoading.

(** ** De-duplicating the search results *)

Section Dedup.
Import Dedup.

Lemma py_eq_key_sym (a b : json) : py_eq_key a b = py_eq_key b a.
Proof.
  destruct a, b; cbn; try reflexivity.
  - destruct b, b0; reflexivity.
  - apply Z.eqb_sym.
  - apply String.eqb_sym.
Qed.

Lemma dedup_videos_inv (results seen unique : list json) :
  dedup_videos seen results = POk unique ->
  unique `sublist_of` results /\
  (forall w, w ∈ unique -> exists c, py_get w "bvid" JNull = POk c /\ truthy c = true /\
                                   existsb (py_eq_key c) seen = false) /\
  (forall i j v w b c, i < j -> unique !! i = Some v -> unique !! j = Some w ->
     py_get v "bvid" JNull = POk b -> py_get w "bvid" JNull = POk c -> py_eq_key b c = false) /\
  (forall v b, v ∈ results -> py_get v "bvid" JNull = POk b -> truthy b = true ->
     existsb (py_eq_key b) seen = true \/
     exists w c, w ∈ unique /\ py_get w "bvid" JNull = POk c /\ py_eq_key b c = true).
Proof.
  revert seen unique.
  induction results as [|video rest IH]; intros seen unique H.
  - cbn in H. injection H as <-. split; [constructor|].
    split; [intros w Hw; inversion Hw|]. split; [intros i j v w b c _ Hi; discriminate Hi|].
    intros v b Hv. inversion Hv.
  - cbn [dedup_videos] in H.
    destruct (py_get video "bvid" JNull) as [bvid|e] eqn:Hg; cbn [pbind] in H; [|discriminate H].
    destruct (truthy bvid) eqn:Ht.
    2:{ destruct (IH seen unique H) as (Hs & Hw & Hp & Hc).
        split; [apply sublist_cons, Hs|]. split; [exact Hw|]. split; [exact Hp|].
        intros v b Hv Hb Htb. apply elem_of_cons in Hv as [-> | Hv].
        - rewrite Hg in Hb. injection Hb as <-. congruence.
        - exact (Hc v b Hv Hb Htb). }
    assert (Hk : py_eq_key bvid bvid = true /\
      (if existsb (py_eq_key bvid) seen then dedup_videos seen rest
       else let! u := dedup_videos (bvid :: seen) rest in POk (video :: u)) = POk unique).
    { destruct bvid; try discriminate H; split; try exact H; cbn;
        first [apply String.eqb_refl | apply Z.eqb_refl | apply Bool.eqb_reflx | reflexivity]. }
    clear H. destruct Hk as [Hrefl H].
    destruct (existsb (py_eq_key bvid) seen) eqn:He.
    + destruct (IH seen unique H) as (Hs & Hw & Hp & Hc).
      split; [apply sublist_cons, Hs|]. split; [exact Hw|]. split; [exact Hp|].
      intros v b Hv Hb Htb. apply elem_of_cons in Hv as [-> | Hv].
      * rewrite Hg in Hb. injection Hb as <-. left; exact He.
      * exact (Hc v b Hv Hb Htb).
    + destruct (dedup_videos (bvid :: seen) rest) as [u|e] eqn:Hd; cbn [pbind] in H; [|discriminate H].
      injection H as <-.
      destruct (IH (bvid :: seen) u Hd) as (Hs & Hw & Hp & Hc).
      split; [apply sublist_skip, Hs|].
      split.
      { intros w Hw'. apply elem_of_cons in Hw' as [-> | Hw'].
        - exists bvid. split; [exact Hg|]. split; [exact Ht|exact He].
        - destruct (Hw w Hw') as (c & Hgc & Htc & Hec). exists c.
          split; [exact Hgc|]. split; [exact Htc|].
          cbn in Hec. apply orb_false_iff in Hec. apply Hec. }
      split.
      { intros i j v w b c Hij Hi Hj Hb Hc'.
        destruct j as [|j]; [lia|]. cbn in Hj.
        destruct i as [|i].
        - cbn in Hi. injection Hi as <-. rewrite Hg in Hb. injection Hb as <-.
          destruct (Hw w (list_elem_of_lookup_2 _ _ _ Hj)) as (c' & Hgc & _ & Hec).
          rewrite Hc' in Hgc. injection Hgc as <-.
          cbn in Hec. apply orb_false_iff in Hec as [Hec _].
          rewrite py_eq_key_sym. exact Hec.
        - cbn in Hi. apply (Hp i j v w b c); [lia|exact Hi|exact Hj|exact Hb|exact Hc']. }
      intros v b Hv Hb Htb. apply elem_of_cons in Hv as [-> | Hv].
      * rewrite Hg in Hb. injection Hb as <-. right. exists video, bvid.
        split; [apply elem_of_cons; left; reflexivity|]. split; [exact Hg|exact Hrefl].
      * destruct (Hc v b Hv Hb Htb) as [Hin | (w & c & Hw' & Hgc & Heq)].
        -- cbn in Hin. apply orb_true_iff in Hin as [Hin | Hin].
           ++ right. exists video, bvid.
              split; [apply elem_of_cons; left; reflexivity|]. split; [exact Hg|exact Hin].
           ++ left; exact Hin.
        -- right. exists w, c. split; [apply elem_of_cons; right; exact Hw'|].
           split; [exact Hgc|exact Heq].
Qed.

(** [unique_videos], when the loop over the search results raises
    nothing: it keeps the results in their order, every kept video has a
    truthy [bvid], no two kept videos have equal [bvid]s, and every result
    with a truthy [bvid] has a kept video with an equal [bvid]. *)
Theorem unique_videos_dedup (results unique : list json) :
  dedup_videos [] results = POk unique ->
  unique `sublist_of` results /\
  (forall w, w ∈ unique -> exists c, py_get w "bvid" JNull = POk c /\ truthy c = true) /\
  (forall i j v w b c, i <> j -> unique !! i = Some v -> unique !! j = Some w ->
     py_get v "bvid" JNull = POk b -> py_get w "bvid" JNull = POk c -> py_eq_key b c = false) /\
  (forall v b, v ∈ results -> py_get v "bvid" JNull = POk b -> truthy b = true ->
     exists w c, w ∈ unique /\ py_get w "bvid" JNull = POk c /\ py_eq_key b c = true).
Proof.
  intros H. destruct (dedup_videos_inv results [] unique H) as (Hs & Hw & Hp & Hc).
  split; [exact Hs|]. split.
  { intros w Hw'. destruct (Hw w Hw') as (c & Hgc & Htc & _). exists c. split; assumption. }
  split.
  { intros i j v w b c Hij Hi Hj Hb Hc'.
    destruct (Nat.lt_gt_cases i j) as [[Hlt|Hgt] _]; [exact Hij| |].
    - exact (Hp i j v w b c Hlt Hi Hj Hb Hc').
    - rewrite py_eq_key_sym. exact (Hp j i w v c b Hgt Hj Hi Hc' Hb). }
  intros v b Hv Hb Htb. destruct (Hc v b Hv Hb Htb) as [Hin | Hex]; [discriminate Hin|exact Hex].
Qed.

End Dedup.

(** ** Witnesses *)

Lemma load_cookies_stops_at_non_object_witness :
  let cfg items := Some (POk (JObj (("cookies", JList items) :: [("settings", JObj [("validate_on_load", JBool true)])]))) in
  let pre := [JObj [("value", JStr "SESSDATA=a")]] in
  let post := [JObj [("value", JStr "SESSDATA=b")]] in
  CookieLoad.r_cookies (CookieLoad.load_cookies (cfg (pre ++ JStr "oops" :: post))) =
  CookieLoad.r_cookies (CookieLoad.load_cookies (cfg pre)).
Proof.
  intros cfg pre post.
  apply (load_cookies_stops_at_non_object [("settings", JObj [("validate_on_load", JBool true)])]
           pre post (JStr "oops")).
  intros kvs; discriminate.
Defined.

Lemma unique_videos_dedup_witness :
  let results := [JObj [("bvid", JStr "BV1xx")]; JObj [("title", JStr "t")];
                  JObj [("bvid", JStr "BV1xx")]; JObj [("bvid", JStr "BV2yy")]] in
  Dedup.dedup_videos [] results = POk [JObj [("bvid", JStr "BV1xx")]; JObj [("bvid", JStr "BV2yy")]] /\
  [JObj [("bvid", JStr "BV1xx")]; JObj [("bvid", JStr "BV2yy")]] `sublist_of` results.
Proof.
  intros results. split; [reflexivity|].
  exact (proj1 (unique_videos_dedup results _ eq_refl)).
Defined.
